(** * Cinematic 3D Animator: parameter store, motion cycle and capture pipeline

    A shallow embedding of [src/components/Animator.tsx] (the zustand
    parameter store and the capture handlers of the [Animator] component) and
    of the [Scene] component of the parallax studio (the [useEffect] on
    [playSignal] and the [useFrame] callback).

    JavaScript numbers are read as real numbers: the motion formulas are
    stated in the specification over the reals ([elapsed: real >= 0]), and
    rounding of IEEE doubles is outside this development. *)

From Stdlib Require Import Strings.String Strings.Byte.
From Stdlib Require Import Reals Lra Lia ZArith List Bool.
Import ListNotations.

Local Open Scope R_scope.

(** ** Numbers *)

Module JsNum.

(** Rounding toward zero, the quotient the [%] operator works with. *)
Definition trunc (x : R) : Z :=
  if Rle_dec 0 x then Int_part x else (- Int_part (- x))%Z.

(** [n % d]: the remainder has the sign of the dividend.  For [d = 0]
    JavaScript answers [NaN]; the only use below divides by a clamped,
    positive duration. *)
Definition rem (n d : R) : R := n - d * IZR (trunc (n / d)).

Definition Math_max (a b : R) : R := Rmax a b.
Definition Math_PI : R := PI.
Definition Math_sin (a : R) : R := sin a.
Definition Math_cos (a : R) : R := cos a.

End JsNum.

(** ** The parameter store ([useAnimatorStore]) *)

Module Store.

Record AnimationSettings : Type := mkSettings {
  duration : R;
  depth : R;
  sway : R;
  zoom : R;
  roll : R;
  wave : R;
  exposure : R;
  vignette : R
}.

(** [keyof AnimationSettings] *)
Inductive Key : Type :=
| Kduration | Kdepth | Ksway | Kzoom | Kroll | Kwave | Kexposure | Kvignette.

Definition Key_eqb (a b : Key) : bool :=
  match a, b with
  | Kduration, Kduration | Kdepth, Kdepth | Ksway, Ksway | Kzoom, Kzoom
  | Kroll, Kroll | Kwave, Kwave | Kexposure, Kexposure
  | Kvignette, Kvignette => true
  | _, _ => false
  end.

(** [settings[key]] *)
Definition field (key : Key) (s : AnimationSettings) : R :=
  match key with
  | Kduration => duration s
  | Kdepth => depth s
  | Ksway => sway s
  | Kzoom => zoom s
  | Kroll => roll s
  | Kwave => wave s
  | Kexposure => exposure s
  | Kvignette => vignette s
  end.

(** The object literal [{ ...s, [key]: value }]: every own property of
    [s] is copied, then the computed key is written. *)
Definition spread_with (s : AnimationSettings) (key : Key) (value : R)
  : AnimationSettings :=
  let pick (k : Key) := if Key_eqb k key then value else field k s in
  {| duration := pick Kduration;
     depth := pick Kdepth;
     sway := pick Ksway;
     zoom := pick Kzoom;
     roll := pick Kroll;
     wave := pick Kwave;
     exposure := pick Kexposure;
     vignette := pick Kvignette |}.

(** The data part of [AnimatorState]; [setValue] and [reset] are the two
    functions below. *)
Record AnimatorState : Type := mkState { settings : AnimationSettings }.

(** zustand's [set]: the next state is computed from the current one and
    stored by a single assignment. *)
Definition set (partial : AnimatorState -> AnimatorState)
  (state : AnimatorState) : AnimatorState := partial state.

(** The state the store is created with (lines 22-31). *)
Definition create : AnimatorState :=
  {| settings :=
       {| duration := 8;
          depth := 0.35;
          sway := 0.6;
          zoom := 0.12;
          roll := 0.08;
          wave := 0.15;
          exposure := 1.05;
          vignette := 0.25 |} |}.

Definition setValue (key : Key) (value : R) : AnimatorState -> AnimatorState :=
  set (fun state =>
         {| settings := spread_with (settings state) key value |}).

(** The table written out a second time in [reset] (lines 41-50). *)
Definition reset : AnimatorState -> AnimatorState :=
  set (fun _ =>
         {| settings :=
              {| duration := 8;
                 depth := 0.35;
                 sway := 0.6;
                 zoom := 0.12;
                 roll := 0.08;
                 wave := 0.15;
                 exposure := 1.05;
                 vignette := 0.25 |} |}).

(** Calls made on the store, and what a reader sees after each of them. *)
Inductive Call : Type :=
| CallSetValue (key : Key) (value : R)
| CallReset.

Definition call (c : Call) : AnimatorState -> AnimatorState :=
  match c with
  | CallSetValue key value => setValue key value
  | CallReset => reset
  end.

Definition calls (cs : list Call) (state : AnimatorState) : AnimatorState :=
  fold_left (fun st c => call c st) cs state.

(** The successive snapshots [get()] can return while [cs] runs, the
    starting one first. *)
Fixpoint snapshots (cs : list Call) (state : AnimatorState)
  : list AnimationSettings :=
  settings state ::
  match cs with
  | [] => []
  | c :: rest => snapshots rest (call c state)
  end.

End Store.

(** ** The scene ([Scene] of the parallax studio) *)

Module Scene.
Import JsNum Store.

Record Vector3 : Type := vec3 { x : R; y : R; z : R }.

(** The camera: its position and the point [lookAt] last aimed it at. *)
Record Camera : Type := mkCamera {
  cam_position : Vector3;
  cam_lookAt : Vector3
}.

(** The displaced plane: the parts of the mesh the frame callback writes. *)
Record Mesh : Type := mkMesh {
  rotation_z : R;
  position_z : R;
  displacementScale : R
}.

(** A point light of the rig. *)
Record PointLight : Type := mkLight {
  intensity : R;
  light_position : Vector3
}.

Record SceneState : Type := mkScene {
  timeRef : R;                         (* timeRef.current *)
  effectDep : option Z;                (* playSignal of the last effect run *)
  camera : Camera;                     (* state.camera *)
  toneMappingExposure : R;             (* gl.toneMappingExposure *)
  meshRef : option Mesh;               (* meshRef.current *)
  lightRig : option (list PointLight)  (* lightRig.current.children *)
}.

(** [useEffect(() => { timeRef.current = 0 }, [playSignal])]: the effect
    runs after the first render and after every render whose [playSignal]
    differs from the one of the previous render. *)
Definition useEffect_playSignal (playSignal : Z) (st : SceneState)
  : SceneState :=
  let run :=
    {| timeRef := 0;
       effectDep := Some playSignal;
       camera := camera st;
       toneMappingExposure := toneMappingExposure st;
       meshRef := meshRef st;
       lightRig := lightRig st |} in
  match effectDep st with
  | None => run
  | Some previous => if Z.eqb previous playSignal then st else run
  end.

(** [lightRig.current.children.forEach((child, index) => ...)] *)
Fixpoint forEach_child (cycle : R) (index : nat) (children : list PointLight)
  : list PointLight :=
  match children with
  | [] => []
  | child :: rest =>
      let t := cycle + INR index * 2 in
      {| intensity := intensity child;
         light_position :=
           {| x := Math_sin (t * 0.35) * 4;
              y := Math_cos (t * 0.22) * 3 + 1.5;
              z := Math_sin (t * 0.18) * 5 + 4 |} |}
      :: forEach_child cycle (S index) rest
  end.

(** The local constants [duration], [normalized] and [cycle] of the
    frame callback (lines 101-103), as functions of the accumulated time.
    The literal 0.1 is read as the real 1/10; the double it denotes lies a
    hair above, which the remainder can turn into a different phase, so
    what is stated about the value of the phase is stated for durations of
    at least 0.1, where the clamp returns the duration itself. *)
Definition frame_duration (settings : AnimationSettings) : R :=
  Math_max 0.1 (Store.duration settings).

Definition frame_normalized (time : R) (settings : AnimationSettings) : R :=
  rem time (frame_duration settings) / frame_duration settings.

Definition frame_cycle (time : R) (settings : AnimationSettings) : R :=
  frame_normalized time settings * Math_PI * 2.

(** The [useFrame] callback (lines 99-133). *)
Definition useFrame_callback (settings : AnimationSettings) (delta : R)
  (st : SceneState) : SceneState :=
  let time := timeRef st + delta in
  let cycle := frame_cycle time settings in
  let sway := Math_sin cycle * Store.sway settings in
  let lift := Math_cos (cycle * 0.8) * Store.sway settings * 0.6 in
  let zoom := Math_sin (cycle * 0.5) * Store.zoom settings in
  let roll := Math_sin (cycle * 0.5) * Store.roll settings in
  let wave := Math_sin (cycle * 1.4) * Store.wave settings in
  {| timeRef := time;
     effectDep := effectDep st;
     camera :=
       {| cam_position :=
            {| x := sway * 0.8; y := lift * 0.4; z := 3.1 + zoom * 3.2 |};
          cam_lookAt := {| x := 0; y := 0; z := 0 |} |};
     toneMappingExposure := Store.exposure settings;
     meshRef :=
       match meshRef st with
       | Some _ =>
           Some {| rotation_z := roll;
                   position_z := wave * 0.45;
                   displacementScale := Store.depth settings * 0.75 |}
       | None => None
       end;
     lightRig :=
       match lightRig st with
       | Some children => Some (forEach_child cycle 0 children)
       | None => None
       end |}.

(** What happens to a mounted scene: React renders it with the current
    [playSignal] (and runs the effect), or the host calls the frame
    callback. *)
Inductive Event : Type :=
| Render (playSignal : Z)
| Frame (settings : AnimationSettings) (delta : R).

Definition step (ev : Event) (st : SceneState) : SceneState :=
  match ev with
  | Render playSignal => useEffect_playSignal playSignal st
  | Frame settings delta => useFrame_callback settings delta st
  end.

Definition run (evs : list Event) (st : SceneState) : SceneState :=
  fold_left (fun s ev => step ev s) evs st.


(** The time deltas of the frames of a trace, summed. *)
Fixpoint elapsed_of (evs : list Event) : R :=
  match evs with
  | [] => 0
  | Render _ :: rest => elapsed_of rest
  | Frame _ delta :: rest => delta + elapsed_of rest
  end.

(** Every render of the trace carries the signal [p]. *)
Fixpoint signal_steady (p : Z) (evs : list Event) : bool :=
  match evs with
  | [] => true
  | Render q :: rest => Z.eqb q p && signal_steady p rest
  | Frame _ _ :: rest => signal_steady p rest
  end.

(** No frame of the trace runs time backwards. *)
Fixpoint deltas_nonneg (evs : list Event) : Prop :=
  match evs with
  | [] => True
  | Render _ :: rest => deltas_nonneg rest
  | Frame _ delta :: rest => 0 <= delta /\ deltas_nonneg rest
  end.

(** *** The cycle as the specification words it

    [normalized = (elapsed mod duration) / duration], [cycle = normalized * 2pi],
    with the duration of the settings record itself. *)
Definition spec_cycle (e : R) (settings : AnimationSettings) : R :=
  (rem e (Store.duration settings) / Store.duration settings) * (2 * PI).

(** The settings and the scene of the examples below: a loop shorter
    than the clamp, full zoom, nothing else moving. *)
Definition short_loop : AnimationSettings := mkSettings 0.05 0 0 1 0 0 1 0.
Definition fresh_scene : SceneState :=
  mkScene 0 (Some 0%Z) (mkCamera (vec3 0 0 3.5) (vec3 0 0 0)) 1 None None.

End Scene.

(** ** The capture pipeline ([Animator]) *)

Module Animator.

(** *** The browser objects the handlers work on *)

Definition Canvas : Type := nat.

Record Blob : Type := mkBlob {
  blob_bytes : list byte;
  blob_type : string
}.

(** [blob.size] *)
Definition size (b : Blob) : nat := length (blob_bytes b).

(** [new Blob(parts, { type })] *)
Definition new_Blob (parts : list Blob) (type : string) : Blob :=
  {| blob_bytes := concat (map blob_bytes parts); blob_type := type |}.

Record PreparedImage : Type := mkPrepared {
  id : string;
  displayName : string;
  originalUrl : string;
  displacementUrl : string;
  aspect : R
}.

Inductive RecordingState : Type := inactive | recording | paused.

(** A [MediaRecorder]: its [mimeType], its [state], and whether the task
    that [stop()] queues (fire [dataavailable], then [stop]) is still to
    run. *)
Record MediaRecorder : Type := mkRecorder {
  mimeType : string;
  state : RecordingState;
  stop_queued : bool
}.

(** A pending [window.setTimeout(() => recorder.stop(), ms)]. *)
Record Timeout : Type := mkTimeout {
  timeout_recorder : nat;
  timeout_ms : R
}.

(** The calls a handler makes on the outside, in the order it makes them. *)
Inductive Effect : Type :=
| CaptureStream (canvas : Canvas) (fps : nat)
| NewMediaRecorder (recorder : nat) (mime : string)
| SetPlaySignal
| RecorderStart (recorder : nat)
| SetTimeout (recorder : nat) (ms : R)
| RecorderStop (recorder : nat)
| CreateObjectURL (url : nat).

(** What the platform can encode: [MediaRecorder.isTypeSupported]. *)
Record Platform : Type := mkPlatform {
  isTypeSupported : string -> bool
}.

(** The component: its refs, its React state, the store's settings it
    reads, and the browser objects it has created. *)
Record Component : Type := mkComponent {
  canvasRef : option Canvas;         (* canvasRef.current *)
  recorderRef : option nat;          (* recorderRef.current *)
  chunksRef : list Blob;             (* chunksRef.current *)
  prepared : option PreparedImage;
  isLoading : bool;
  isRecording : bool;
  downloadUrl : option nat;
  playSignal : Z;
  store : Store.AnimatorState;
  recorders : list MediaRecorder;    (* every recorder constructed so far *)
  timeouts : list Timeout;           (* pending timers *)
  objectUrls : list Blob;            (* blobs behind the object URLs *)
  effects : list Effect              (* oldest first *)
}.

(** The component as first rendered: nothing prepared, loading. *)
Definition mount : Component :=
  {| canvasRef := None; recorderRef := None; chunksRef := [];
     prepared := None; isLoading := true; isRecording := false;
     downloadUrl := None; playSignal := 0%Z; store := Store.create;
     recorders := []; timeouts := []; objectUrls := []; effects := [] |}.

(** *** Field updates *)

Definition with_canvasRef (v : option Canvas) (c : Component) : Component :=
  mkComponent v (recorderRef c) (chunksRef c) (prepared c) (isLoading c)
    (isRecording c) (downloadUrl c) (playSignal c) (store c) (recorders c)
    (timeouts c) (objectUrls c) (effects c).
Definition with_recorderRef (v : option nat) (c : Component) : Component :=
  mkComponent (canvasRef c) v (chunksRef c) (prepared c) (isLoading c)
    (isRecording c) (downloadUrl c) (playSignal c) (store c) (recorders c)
    (timeouts c) (objectUrls c) (effects c).
Definition with_chunksRef (v : list Blob) (c : Component) : Component :=
  mkComponent (canvasRef c) (recorderRef c) v (prepared c) (isLoading c)
    (isRecording c) (downloadUrl c) (playSignal c) (store c) (recorders c)
    (timeouts c) (objectUrls c) (effects c).
Definition with_prepared (v : option PreparedImage) (c : Component)
  : Component :=
  mkComponent (canvasRef c) (recorderRef c) (chunksRef c) v (isLoading c)
    (isRecording c) (downloadUrl c) (playSignal c) (store c) (recorders c)
    (timeouts c) (objectUrls c) (effects c).
Definition with_isLoading (v : bool) (c : Component) : Component :=
  mkComponent (canvasRef c) (recorderRef c) (chunksRef c) (prepared c) v
    (isRecording c) (downloadUrl c) (playSignal c) (store c) (recorders c)
    (timeouts c) (objectUrls c) (effects c).
Definition with_isRecording (v : bool) (c : Component) : Component :=
  mkComponent (canvasRef c) (recorderRef c) (chunksRef c) (prepared c)
    (isLoading c) v (downloadUrl c) (playSignal c) (store c) (recorders c)
    (timeouts c) (objectUrls c) (effects c).
Definition with_downloadUrl (v : option nat) (c : Component) : Component :=
  mkComponent (canvasRef c) (recorderRef c) (chunksRef c) (prepared c)
    (isLoading c) (isRecording c) v (playSignal c) (store c) (recorders c)
    (timeouts c) (objectUrls c) (effects c).
Definition with_playSignal (v : Z) (c : Component) : Component :=
  mkComponent (canvasRef c) (recorderRef c) (chunksRef c) (prepared c)
    (isLoading c) (isRecording c) (downloadUrl c) v (store c) (recorders c)
    (timeouts c) (objectUrls c) (effects c).
Definition with_store (v : Store.AnimatorState) (c : Component) : Component :=
  mkComponent (canvasRef c) (recorderRef c) (chunksRef c) (prepared c)
    (isLoading c) (isRecording c) (downloadUrl c) (playSignal c) v
    (recorders c) (timeouts c) (objectUrls c) (effects c).
Definition with_recorders (v : list MediaRecorder) (c : Component)
  : Component :=
  mkComponent (canvasRef c) (recorderRef c) (chunksRef c) (prepared c)
    (isLoading c) (isRecording c) (downloadUrl c) (playSignal c) (store c) v
    (timeouts c) (objectUrls c) (effects c).
Definition with_timeouts (v : list Timeout) (c : Component) : Component :=
  mkComponent (canvasRef c) (recorderRef c) (chunksRef c) (prepared c)
    (isLoading c) (isRecording c) (downloadUrl c) (playSignal c) (store c)
    (recorders c) v (objectUrls c) (effects c).
Definition with_objectUrls (v : list Blob) (c : Component) : Component :=
  mkComponent (canvasRef c) (recorderRef c) (chunksRef c) (prepared c)
    (isLoading c) (isRecording c) (downloadUrl c) (playSignal c) (store c)
    (recorders c) (timeouts c) v (effects c).
Definition with_effects (v : list Effect) (c : Component) : Component :=
  mkComponent (canvasRef c) (recorderRef c) (chunksRef c) (prepared c)
    (isLoading c) (isRecording c) (downloadUrl c) (playSignal c) (store c)
    (recorders c) (timeouts c) (objectUrls c) v.

(** *** Handlers

    A handler runs on the component and either returns or throws; what it
    wrote before a throw stays written.  A handler reads the React state
    of the render it was created in: React commits the updates of one
    event before the next event is dispatched, so that is the state at the
    time of the call. *)

Inductive Exception : Type := NotSupportedError | InvalidStateError.

Inductive Completion (A : Type) : Type :=
| Returned (a : A)
| Thrown (e : Exception).
Arguments Returned {A} a.
Arguments Thrown {A} e.

Definition Handler (A : Type) : Type := Component -> Completion A * Component.

Definition ret {A : Type} (a : A) : Handler A := fun c => (Returned a, c).

Definition bind {A B : Type} (h : Handler A) (k : A -> Handler B)
  : Handler B :=
  fun c =>
    match h c with
    | (Returned a, c') => k a c'
    | (Thrown e, c') => (Thrown e, c')
    end.

Definition throw {A : Type} (e : Exception) : Handler A :=
  fun c => (Thrown e, c).

Definition read {A : Type} (f : Component -> A) : Handler A :=
  fun c => (Returned (f c), c).

Definition update (f : Component -> Component) : Handler unit :=
  fun c => (Returned tt, f c).

Definition emit (e : Effect) : Handler unit :=
  update (fun c => with_effects (effects c ++ [e]) c).

Notation "x <- h ;; k" := (bind h (fun x => k))
  (at level 61, h at next level, right associativity).
Notation "h ;; k" := (bind h (fun _ => k))
  (at level 61, right associativity).

(** [xs] with its element of index [i] replaced by [f] of it. *)
Fixpoint alter_nth {A : Type} (f : A -> A) (i : nat) (xs : list A) : list A :=
  match xs, i with
  | [], _ => []
  | x :: rest, O => f x :: rest
  | x :: rest, S j => x :: alter_nth f j rest
  end.

(** [xs] without its element of index [i]. *)
Fixpoint remove_nth {A : Type} (i : nat) (xs : list A) : list A :=
  match xs, i with
  | [], _ => []
  | _ :: rest, O => rest
  | x :: rest, S j => x :: remove_nth j rest
  end.

(** *** The platform's side: [MediaRecorder], timers, object URLs *)

Section Handlers.
Variable platform : Platform.

(** [new MediaRecorder(stream, { mimeType })]: throws
    [NotSupportedError] for a type the platform cannot record. *)
Definition new_MediaRecorder (mime : string) : Handler nat :=
  if isTypeSupported platform mime then
    recorder <- read (fun c => length (recorders c)) ;;
    update (fun c =>
              with_recorders (recorders c ++ [mkRecorder mime inactive false])
                c) ;;
    ret recorder
  else throw NotSupportedError.

(** [recorder.state] *)
Definition recorder_state (recorder : nat) : Handler RecordingState :=
  read (fun c =>
          match nth_error (recorders c) recorder with
          | Some m => state m
          | None => inactive
          end).

(** [recorder.start()] *)
Definition start (recorder : nat) : Handler unit :=
  st <- recorder_state recorder ;;
  match st with
  | inactive =>
      update (fun c =>
                with_recorders
                  (alter_nth (fun m => mkRecorder (mimeType m) recording
                                         (stop_queued m))
                     recorder (recorders c)) c) ;;
      emit (RecorderStart recorder)
  | _ => throw InvalidStateError
  end.

(** [recorder.stop()]: nothing on an inactive recorder; otherwise the
    recorder turns inactive and a task is queued that fires
    [dataavailable] and then [stop]. *)
Definition stop (recorder : nat) : Handler unit :=
  st <- recorder_state recorder ;;
  match st with
  | inactive => ret tt
  | _ =>
      update (fun c =>
                with_recorders
                  (alter_nth (fun m => mkRecorder (mimeType m) inactive true)
                     recorder (recorders c)) c) ;;
      emit (RecorderStop recorder)
  end.

(** [window.setTimeout(() => recorder.stop(), ms)] *)
Definition setTimeout (recorder : nat) (ms : R) : Handler unit :=
  update (fun c => with_timeouts (timeouts c ++ [mkTimeout recorder ms]) c) ;;
  emit (SetTimeout recorder ms).

(** [URL.createObjectURL(blob)] *)
Definition createObjectURL (blob : Blob) : Handler nat :=
  url <- read (fun c => length (objectUrls c)) ;;
  update (fun c => with_objectUrls (objectUrls c ++ [blob]) c) ;;
  emit (CreateObjectURL url) ;;
  ret url.

(** *** The component's handlers *)

(** The constant [mimeType] of [handleRecord] (lines 136-140). *)
Definition select_mimeType : string :=
  if isTypeSupported platform "video/webm;codecs=vp9"
  then "video/webm;codecs=vp9"%string
  else if isTypeSupported platform "video/webm;codecs=vp8"
       then "video/webm;codecs=vp8"%string
       else "video/webm"%string.

(** [handleRecord] (lines 129-170). *)
Definition handleRecord : Handler unit :=
  canvasRef_current <- read canvasRef ;;
  isRecording_now <- read isRecording ;;
  match canvasRef_current with
  | None => ret tt
  | Some canvas =>
      if isRecording_now then ret tt
      else
        (* const stream = canvas.captureStream(60) *)
        let mimeType := select_mimeType in
        recorder <- new_MediaRecorder mimeType ;;
        update (with_recorderRef (Some recorder)) ;;
        update (with_chunksRef []) ;;
        update (with_downloadUrl None) ;;
        (* recorder.ondataavailable = ...; recorder.onstop = ... *)
        update (with_isRecording true) ;;
        update (fun c => with_playSignal (playSignal c + 1)%Z c) ;;
        emit SetPlaySignal ;;
        start recorder ;;
        duration <- read (fun c => Store.duration (Store.settings (store c))) ;;
        setTimeout recorder (duration * 1000)
  end.

(** [recorder.ondataavailable] (lines 150-154). *)
Definition ondataavailable (data : Blob) : Handler unit :=
  if Nat.eqb (size data) 0 then ret tt
  else update (fun c => with_chunksRef (chunksRef c ++ [data]) c).

(** [recorder.onstop] (lines 156-161). *)
Definition onstop : Handler unit :=
  blob <- read (fun c => new_Blob (chunksRef c) "video/webm") ;;
  url <- createObjectURL blob ;;
  update (with_downloadUrl (Some url)) ;;
  update (with_isRecording false).

(** [stopRecording] (lines 172-176). *)
Definition stopRecording : Handler unit :=
  recorderRef_current <- read recorderRef ;;
  match recorderRef_current with
  | Some recorder =>
      st <- recorder_state recorder ;;
      match st with
      | recording => stop recorder
      | _ => ret tt
      end
  | None => ret tt
  end.

(** The task [stop()] queued on [recorder]: the data gathered so far
    goes to [ondataavailable], then [onstop] runs. *)
Definition stop_task (recorder : nat) (data : Blob) : Handler unit :=
  queued <- read (fun c =>
                    match nth_error (recorders c) recorder with
                    | Some m => stop_queued m
                    | None => false
                    end) ;;
  if queued then
    update (fun c =>
              with_recorders
                (alter_nth (fun m => mkRecorder (mimeType m) (state m) false)
                   recorder (recorders c)) c) ;;
    ondataavailable data ;;
    onstop
  else ret tt.

(** The pending timer of index [i] fires: its callback is
    [recorder.stop()]. *)
Definition timeout_fires (i : nat) : Handler unit :=
  pending <- read (fun c => nth_error (timeouts c) i) ;;
  match pending with
  | Some t =>
      update (fun c => with_timeouts (remove_nth i (timeouts c)) c) ;;
      stop (timeout_recorder t)
  | None => ret tt
  end.

(** [handleFileChange] up to [reader.readAsDataURL(file)]
    (lines 101-109, 124); [file] is [event.target.files?.[0]]. *)
Definition handleFileChange (file : option string) : Handler unit :=
  match file with
  | None => ret tt
  | Some _ =>
      update (with_isLoading true) ;;
      update (with_downloadUrl None)
  end.

(** How [reader.onload] (lines 110-123) can go. *)
Inductive Load : Type :=
| ResultNotString
| PrepareRejected
| PrepareResolved (mapped : PreparedImage).

Definition reader_onload (load : Load) : Handler unit :=
  match load with
  | ResultNotString => update (with_isLoading false)
  | PrepareResolved mapped =>
      update (with_prepared (Some mapped)) ;;
      update (with_isLoading false)
  | PrepareRejected => update (with_isLoading false)
  end.

(** [bootstrap] (lines 82-94) once its promise settles. *)
Definition bootstrap_settled (mapped : option PreparedImage) : Handler unit :=
  match mapped with
  | Some image =>
      update (with_prepared (Some image)) ;;
      update (with_isLoading false)
  | None => update (with_isLoading false)
  end.

(** [registerCanvas] (lines 347-349). *)
Definition registerCanvas (canvas : Canvas) : Handler unit :=
  update (with_canvasRef (Some canvas)).

(** *** Events *)

Inductive Event : Type :=
| BootstrapSettled (mapped : option PreparedImage)
| RegisterCanvas (canvas : Canvas)
| StoreCall (call : Store.Call)
| FileChange (file : option string)
| ReaderOnload (load : Load)
| ClickRecord
| ClickStop
| TimeoutFires (i : nat)
| StopTask (recorder : nat) (data : Blob).

Definition handler (ev : Event) : Handler unit :=
  match ev with
  | BootstrapSettled mapped => bootstrap_settled mapped
  | RegisterCanvas canvas => registerCanvas canvas
  | StoreCall call => update (fun c => with_store (Store.call call (store c)) c)
  | FileChange file => handleFileChange file
  | ReaderOnload load => reader_onload load
  | ClickRecord => handleRecord
  | ClickStop => stopRecording
  | TimeoutFires i => timeout_fires i
  | StopTask recorder data => stop_task recorder data
  end.

(** An exception ends the handler; the component stays as it was at
    the throw. *)
Definition step (ev : Event) (c : Component) : Component :=
  snd (handler ev c).

Definition run (evs : list Event) (c : Component) : Component :=
  fold_left (fun c ev => step ev c) evs c.

Inductive reachable : Component -> Prop :=
| reachable_mount : reachable mount
| reachable_step (ev : Event) (c : Component) :
    reachable c -> reachable (step ev c).

(** *** The codec choice as the specification words it *)

Definition codec_preferences : list string :=
  ["video/webm;codecs=vp9"; "video/webm;codecs=vp8"; "video/webm"]%string.

(** The first entry of the list the platform supports, if any. *)
Definition first_supported (prefs : list string) : option string :=
  find (isTypeSupported platform) prefs.

(** *** Notions the statements below use *)

(** A recorder that is stopped with nothing left to deliver, and one that
    is recording or has its stop task still queued. *)
Definition quiet (m : MediaRecorder) : Prop :=
  state m = inactive /\ stop_queued m = false.

Definition live (m : MediaRecorder) : Prop :=
  (state m = recording /\ stop_queued m = false) \/
  (state m = inactive /\ stop_queued m = true).

(** While idle every recorder is quiet; while recording the recorder of
    [recorderRef] is the one live recorder. *)
Definition consistent (c : Component) : Prop :=
  if isRecording c then
    exists (r : nat) (m : MediaRecorder),
      recorderRef c = Some r /\
      nth_error (recorders c) r = Some m /\
      live m /\
      forall (r' : nat) (m' : MediaRecorder),
        r' <> r -> nth_error (recorders c) r' = Some m' -> quiet m'
  else
    forall (r : nat) (m : MediaRecorder),
      nth_error (recorders c) r = Some m -> quiet m.

(** The component right after [handleRecord] has started a capture with
    the type [mime]. *)
Definition started (mime : string) (c : Component) : Component :=
  let recorder := length (recorders c) in
  let ms := Store.duration (Store.settings (store c)) * 1000 in
  {| canvasRef := canvasRef c;
     recorderRef := Some recorder;
     chunksRef := [];
     prepared := prepared c;
     isLoading := isLoading c;
     isRecording := true;
     downloadUrl := None;
     playSignal := (playSignal c + 1)%Z;
     store := store c;
     recorders := recorders c ++ [mkRecorder mime recording false];
     timeouts := timeouts c ++ [mkTimeout recorder ms];
     objectUrls := objectUrls c;
     effects :=
       effects c ++ [SetPlaySignal; RecorderStart recorder;
                     SetTimeout recorder ms] |}.

(** What [ondataavailable] leaves in [chunksRef.current]. *)
Definition delivered (data : Blob) (chunks : list Blob) : list Blob :=
  if Nat.eqb (size data) 0 then chunks else chunks ++ [data].

(** The component right after the stop task of [recorder] has run. *)
Definition finished (recorder : nat) (data : Blob) (c : Component)
  : Component :=
  let chunks := delivered data (chunksRef c) in
  let url := length (objectUrls c) in
  {| canvasRef := canvasRef c;
     recorderRef := recorderRef c;
     chunksRef := chunks;
     prepared := prepared c;
     isLoading := isLoading c;
     isRecording := false;
     downloadUrl := Some url;
     playSignal := playSignal c;
     store := store c;
     recorders :=
       alter_nth (fun m => mkRecorder (mimeType m) (state m) false) recorder
         (recorders c);
     timeouts := timeouts c;
     objectUrls := objectUrls c ++ [new_Blob chunks "video/webm"];
     effects := effects c ++ [CreateObjectURL url] |}.

(** The component once a capture started from [c] has been stopped by its
    timer and has delivered [data]. *)
Definition completed (mime : string) (data : Blob) (c : Component)
  : Component :=
  let recorder := length (recorders c) in
  let ms := Store.duration (Store.settings (store c)) * 1000 in
  let url := length (objectUrls c) in
  {| canvasRef := canvasRef c;
     recorderRef := Some recorder;
     chunksRef := delivered data [];
     prepared := prepared c;
     isLoading := isLoading c;
     isRecording := false;
     downloadUrl := Some url;
     playSignal := (playSignal c + 1)%Z;
     store := store c;
     recorders := recorders c ++ [mkRecorder mime inactive false];
     timeouts := timeouts c;
     objectUrls := objectUrls c ++ [new_Blob (delivered data []) "video/webm"];
     effects :=
       effects c ++ [SetPlaySignal; RecorderStart recorder;
                     SetTimeout recorder ms; RecorderStop recorder;
                     CreateObjectURL url] |}.

End Handlers.


(** *** Inputs of the examples *)

(** A platform that records VP8 and plain WebM but not VP9, and one that
    records nothing. *)
Definition vp8_platform : Platform :=
  {| isTypeSupported :=
       fun mime =>
         String.eqb mime "video/webm;codecs=vp8" || String.eqb mime "video/webm" |}.

Definition no_codec_platform : Platform :=
  {| isTypeSupported := fun _ => false |}.

Definition image_a : PreparedImage :=
  mkPrepared "a" "Dreamscape Muse" "data:a" "data:a-map" 1.5.

Definition image_b : PreparedImage :=
  mkPrepared "b" "b.png" "data:b" "data:b-map" 1.

Definition clip : Blob := mkBlob [x00; x01; x02] "video/webm".

(** The default image is prepared and the canvas registered. *)
Definition ready : Component :=
  run vp8_platform [BootstrapSettled (Some image_a); RegisterCanvas 0%nat] mount.

End Animator.

(** ** The rest of the studio ([ParallaxStudio], [Backdrop], [FloatingDust]) *)

Module Studio.
Import JsNum Store.

(** The stop of the vignette gradient, in percent (line 60). *)
Definition vignette_stop (settings : AnimationSettings) : R :=
  (1 - Store.vignette settings) * 100.

(** [planeDimensions] (lines 135-141). *)
Record Dimensions : Type := mkDimensions { width : R; height : R }.

Definition planeDimensions (aspect : R) : Dimensions :=
  let height := 2.6 in
  {| width := height * aspect; height := height |}.

(** The Euler angles of an object. *)
Record Euler : Type := mkEuler { rotation_x : R; rotation_y : R; rotation_z : R }.

(** The frame callback of [Backdrop] (lines 174-177); [ref] is
    [ref.current]'s rotation, if the mesh is attached.  The callback does
    not look at the time delta. *)
Definition Backdrop_frame (delta : R) (ref : option Euler) : option Euler :=
  match ref with
  | None => None
  | Some rotation =>
      Some {| rotation_x := rotation_x rotation;
              rotation_y := rotation_y rotation;
              rotation_z := rotation_z rotation + 0.0004 |}
  end.

(** The frame callback of [FloatingDust] (lines 204-208). *)
Definition FloatingDust_frame (delta : R) (pointsRef : option Euler)
  : option Euler :=
  match pointsRef with
  | None => None
  | Some rotation =>
      Some {| rotation_x := rotation_x rotation;
              rotation_y := rotation_y rotation + delta * 0.05;
              rotation_z := rotation_z rotation + delta * 0.02 |}
  end.

(** A rendered sequence of frames, given by their deltas. *)
Definition frames (callback : R -> option Euler -> option Euler)
  (deltas : list R) (ref : option Euler) : option Euler :=
  fold_left (fun r delta => callback delta r) deltas ref.

Fixpoint sum (deltas : list R) : R :=
  match deltas with
  | [] => 0
  | delta :: rest => delta + sum rest
  end.

(** [array[i] = v] on a [Float32Array]: the number is rounded to single
    precision, which [fround] stands for, and nothing is written out of
    range. *)
Definition write (fround : R -> R) (i : nat) (v : R) (array : list R)
  : list R :=
  Animator.alter_nth (fun _ => fround v) i array.

(** The loop of [positions] (lines 193-200), [count] rounds from index
    [i] on; [random k] is what the call number [k] of [Math.random]
    returned. *)
Fixpoint positions_loop (fround : R -> R) (random : nat -> R)
  (count i : nat) (array : list R) : list R :=
  match count with
  | O => array
  | S count' =>
      let angle := random (3 * i)%nat * Math_PI * 2 in
      let radius := random (3 * i + 1)%nat * 6.5 + 0.5 in
      let y := random (3 * i + 2)%nat * 3 - 1.5 in
      let array := write fround (i * 3) (Math_cos angle * radius) array in
      let array := write fround (i * 3 + 1) y array in
      let array :=
        write fround (i * 3 + 2) (Math_sin angle * radius - 2) array in
      positions_loop fround random count' (S i) array
  end.

(** [positions] (lines 189-202) for a given number of [rings]; a new
    [Float32Array] is zeroed. *)
Definition positions_of (fround : R -> R) (random : nat -> R) (rings : nat)
  : list R :=
  positions_loop fround random rings 0 (repeat 0 (rings * 3)).

Definition positions (fround : R -> R) (random : nat -> R) : list R :=
  positions_of fround random 2000.

(** What is used of rounding to single precision: it keeps the order, and
    it leaves the numbers 1.5, 5, 7 and 9, which are single-precision
    numbers, as they are, with either sign. *)
Record single_precision (fround : R -> R) : Prop := mkSingle {
  fround_monotone : forall a b : R, a <= b -> fround a <= fround b;
  fround_1_5 : fround 1.5 = 1.5 /\ fround (- 1.5) = - 1.5;
  fround_7 : fround 7 = 7 /\ fround (- 7) = - 7;
  fround_5 : fround 5 = 5;
  fround_9 : fround (- 9) = - 9
}.

End Studio.

(** ** The control panel of [Animator] *)

Module Panel.
Import Store Animator.

(** A [SettingSlider] of the panel (lines 224-287): the key its [onChange]
    writes, and its [min], [max] and [step]. *)
Record Slider : Type := mkSlider {
  slider_key : Key;
  min : R;
  max : R;
  step : R
}.

Definition sliders : list Slider :=
  [ mkSlider Kdepth 0 0.8 0.01;
    mkSlider Ksway 0 1.5 0.01;
    mkSlider Kzoom 0 0.4 0.005;
    mkSlider Kroll 0 0.2 0.005;
    mkSlider Kwave 0 0.4 0.005;
    mkSlider Kexposure 0.6 1.5 0.01;
    mkSlider Kvignette 0 0.65 0.01;
    mkSlider Kduration 4 14 1 ].

(** [onChange={(value) => setValue(key, value)}] *)
Definition slider_onChange (slider : Slider) (value : R)
  : AnimatorState -> AnimatorState :=
  setValue (slider_key slider) value.

(** What the user does to the store: moves the slider of index [i] to
    [value], or presses "Reset Parameters". *)
Inductive Gesture : Type :=
| Slide (i : nat) (value : R)
| PressReset.

Definition gesture (g : Gesture) (state : AnimatorState) : AnimatorState :=
  match g with
  | Slide i value =>
      match nth_error sliders i with
      | Some slider => slider_onChange slider value state
      | None => state
      end
  | PressReset => reset state
  end.

Definition gestures (gs : list Gesture) (state : AnimatorState)
  : AnimatorState :=
  fold_left (fun st g => gesture g st) gs state.

(** A range input hands over a value between its [min] and [max]. *)
Definition in_range (g : Gesture) : Prop :=
  match g with
  | Slide i value =>
      match nth_error sliders i with
      | Some slider => min slider <= value <= max slider
      | None => True
      end
  | PressReset => True
  end.

(** Every setting lies between the ends of its slider. *)
Definition within_sliders (settings : AnimationSettings) : Prop :=
  forall slider : Slider,
    In slider sliders ->
    min slider <= field (slider_key slider) settings <= max slider.




End Panel.

(** ** Bookkeeping of the capture pipeline *)

Module Ledger.
Import Animator.

Section WithPlatform.
Variable platform : Platform.

(** A recorder made by [handleRecord]: its type is an entry of the list
    that the platform supports. *)
Definition chosen_well (m : MediaRecorder) : Prop :=
  In (mimeType m) (codec_preferences) /\
  isTypeSupported platform (mimeType m) = true.

(** What the refs, the React state and the browser objects say about each
    other. *)
Record tidy (c : Component) : Prop := mkTidy {
  tidy_signal : playSignal c = Z.of_nat (length (recorders c));
  tidy_recorderRef :
    recorderRef c =
    match recorders c with
    | [] => None
    | _ :: _ => Some (pred (length (recorders c)))
    end;
  tidy_downloadUrl :
    forall url : nat,
      downloadUrl c = Some url -> S url = length (objectUrls c);
  tidy_recording :
    isRecording c = true -> downloadUrl c = None /\ chunksRef c = [];
  tidy_recorders : Forall chosen_well (recorders c);
  tidy_timeouts :
    Forall (fun t => (timeout_recorder t < length (recorders c))%nat)
      (timeouts c);
  tidy_canvas : canvasRef c = None -> recorders c = []
}.

End WithPlatform.

(** The events that are not part of a capture. *)
Definition bystander (ev : Event) : bool :=
  match ev with
  | BootstrapSettled _ | RegisterCanvas _ | StoreCall _ | FileChange _
  | ReaderOnload _ => true
  | ClickRecord | ClickStop | TimeoutFires _ | StopTask _ _ => false
  end.

End Ledger.

(** * Properties *)

(** ** Remainder and truncation *)

Module JsNumFacts.
Import JsNum.

Lemma trunc_nonneg (x : R) : 0 <= x -> trunc x = Int_part x.
Proof.
  intros Hx. unfold trunc. destruct (Rle_dec 0 x); [reflexivity | contradiction].
Qed.


Lemma trunc_bounds (x : R) :
  0 <= x -> IZR (trunc x) <= x < IZR (trunc x) + 1.
Proof.
  intros Hx. rewrite trunc_nonneg by assumption.
  destruct (base_Int_part x) as [Hlo Hhi]. lra.
Qed.


(** For a non-negative dividend and a positive divisor the remainder
    lies in [[0, d)]. *)
Lemma rem_range (n d : R) : 0 <= n -> 0 < d -> 0 <= rem n d < d.
Proof.
  intros Hn Hd. unfold rem.
  assert (Hq : 0 <= n / d).
  { apply Rmult_le_pos; [assumption | left; apply Rinv_0_lt_compat; assumption]. }
  pose proof (trunc_bounds (n / d) Hq) as [Hlo Hhi].
  assert (Hnd : n = (n / d) * d) by (field; lra).
  split; nra.
Qed.



End JsNumFacts.

(** ** The parameter store *)

Module StoreFacts.
Import Store.

Lemma Key_eqb_refl (k : Key) : Key_eqb k k = true.
Proof. destruct k; reflexivity. Qed.

Lemma Key_eqb_neq (a b : Key) : a <> b -> Key_eqb a b = false.
Proof. destruct a, b; intros H; try reflexivity; contradiction H; reflexivity. Qed.

Lemma field_spread_with (s : AnimationSettings) (key k : Key) (value : R) :
  field k (spread_with s key value) = if Key_eqb k key then value else field k s.
Proof. destruct k; reflexivity. Qed.

(** The table of [reset] is the table of [create]. *)
Lemma reset_table (st : AnimatorState) : reset st = create.
Proof. reflexivity. Qed.

Lemma snapshots_app (cs : list Call) (c : Call) (st : AnimatorState) :
  snapshots (cs ++ [c]) st = snapshots cs st ++ [settings (call c (calls cs st))].
Proof.
  revert st. induction cs as [| c0 cs IH]; intros st; simpl.
  - reflexivity.
  - f_equal. apply IH.
Qed.

(** C9. [setValue(k, v)] makes field [k] equal to [v] and leaves every
    other field of the settings record as it was. *)
Theorem setValue_sets_only_key (st : AnimatorState) (key : Key) (value : R) :
  field key (settings (setValue key value st)) = value /\
  forall other : Key,
    other <> key ->
    field other (settings (setValue key value st)) = field other (settings st).
Proof.
  unfold setValue, set; simpl. split.
  - rewrite field_spread_with, Key_eqb_refl. reflexivity.
  - intros other Hneq. rewrite field_spread_with, Key_eqb_neq by assumption.
    reflexivity.
Qed.

Lemma setValue_sets_only_key_witness :
  field Ksway (settings (setValue Ksway 1 create)) = 1 /\
  field Kdepth (settings (setValue Ksway 1 create)) = field Kdepth (settings create).
Proof.
  split.
  - exact (proj1 (setValue_sets_only_key create Ksway 1)).
  - apply (proj2 (setValue_sets_only_key create Ksway 1)). discriminate.
Defined.

(** C8. After any sequence of calls, [reset()] followed by a read gives
    the default table the store was created with, whole: every snapshot a
    reader can see up to and including the reset is either one seen before
    the reset or that full default table. *)
Theorem reset_then_get_is_default (cs : list Call) (st : AnimatorState) :
  settings (reset (calls cs st)) = settings create /\
  settings (reset (calls cs st)) =
    mkSettings 8 0.35 0.6 0.12 0.08 0.15 1.05 0.25 /\
  forall seen : AnimationSettings,
    In seen (snapshots (cs ++ [CallReset]) st) ->
    In seen (snapshots cs st) \/ seen = settings create.
Proof.
  split; [reflexivity | split; [reflexivity |]].
  intros seen Hin. rewrite snapshots_app in Hin.
  apply in_app_or in Hin. destruct Hin as [Hin | Hin].
  - left; assumption.
  - right. simpl in Hin. destruct Hin as [Heq | []]. symmetry; exact Heq.
Qed.

Lemma reset_then_get_is_default_witness :
  In (settings create)
     (snapshots [CallSetValue Kzoom 0.3] create) \/
  settings create = settings create.
Proof.
  apply (proj2 (proj2 (reset_then_get_is_default
                         [CallSetValue Kzoom 0.3] create))).
  simpl. right. right. left. reflexivity.
Defined.

End StoreFacts.

(** ** The motion cycle *)

Module SceneFacts.
Import JsNum JsNumFacts Store Scene.

Lemma frame_duration_lower (settings : AnimationSettings) :
  0.1 <= frame_duration settings.
Proof. unfold frame_duration, Math_max. apply Rmax_l. Qed.

Lemma frame_duration_pos (settings : AnimationSettings) :
  0 < frame_duration settings.
Proof. pose proof (frame_duration_lower settings). lra. Qed.

(** At or above the clamp the callback works with the duration of the
    settings record, and its cycle is the one of the specification. *)
Lemma frame_duration_unclamped (settings : AnimationSettings) :
  0.1 <= Store.duration settings ->
  frame_duration settings = Store.duration settings.
Proof. intros H. unfold frame_duration, Math_max. apply Rmax_right. exact H. Qed.

Lemma frame_cycle_spec_cycle (e : R) (settings : AnimationSettings) :
  0.1 <= Store.duration settings ->
  frame_cycle e settings = spec_cycle e settings.
Proof.
  intros H. unfold frame_cycle, frame_normalized, spec_cycle, Math_PI.
  rewrite (frame_duration_unclamped settings H). ring.
Qed.



(** The rig after [forEach]: the child of index [i] sits where the
    formula for [start + i] puts it. *)
Lemma forEach_child_nth (cycle : R) (children : list PointLight)
  (start i : nat) :
  nth_error (forEach_child cycle start children) i =
  option_map
    (fun child =>
       let t := cycle + INR (start + i) * 2 in
       {| intensity := intensity child;
          light_position :=
            {| x := Math_sin (t * 0.35) * 4;
               y := Math_cos (t * 0.22) * 3 + 1.5;
               z := Math_sin (t * 0.18) * 5 + 4 |} |})
    (nth_error children i).
Proof.
  revert start i. induction children as [| child rest IH]; intros start i.
  - destruct i; reflexivity.
  - destruct i as [| i]; simpl.
    + rewrite Nat.add_0_r. reflexivity.
    + rewrite IH. replace (S start + i)%nat with (start + S i)%nat by lia.
      reflexivity.
Qed.


(** The state a frame leaves, with the cycle named. *)
Lemma useFrame_callback_unfold (settings : AnimationSettings) (delta : R)
  (st : SceneState) :
  let cycle := frame_cycle (timeRef st + delta) settings in
  useFrame_callback settings delta st =
  {| timeRef := timeRef st + delta;
     effectDep := effectDep st;
     camera :=
       {| cam_position :=
            {| x := sin cycle * Store.sway settings * 0.8;
               y := cos (cycle * 0.8) * Store.sway settings * 0.6 * 0.4;
               z := 3.1 + sin (cycle * 0.5) * Store.zoom settings * 3.2 |};
          cam_lookAt := {| x := 0; y := 0; z := 0 |} |};
     toneMappingExposure := Store.exposure settings;
     meshRef :=
       option_map
         (fun _ =>
            {| rotation_z := sin (cycle * 0.5) * Store.roll settings;
               position_z := sin (cycle * 1.4) * Store.wave settings * 0.45;
               displacementScale := Store.depth settings * 0.75 |})
         (meshRef st);
     lightRig := option_map (forEach_child cycle 0) (lightRig st) |}.
Proof.
  unfold useFrame_callback, Math_sin, Math_cos.
  destruct (meshRef st), (lightRig st); reflexivity.
Qed.











(** C10. The callback divides by [max(0.1, settings.duration)], which is
    at least 0.1 whatever the settings, so never by zero, and for an
    accumulated time [e >= 0] the normalized phase lies in [[0, 1)]. *)
Theorem frame_normalized_in_unit_interval (settings : AnimationSettings)
  (e : R) :
  0 <= e ->
  frame_duration settings = Rmax 0.1 (Store.duration settings) /\
  0.1 <= frame_duration settings /\
  frame_duration settings <> 0 /\
  0 <= frame_normalized e settings < 1.
Proof.
  intros He. pose proof (frame_duration_pos settings) as Hd.
  split; [reflexivity |].
  split; [apply frame_duration_lower |].
  split; [lra |].
  unfold frame_normalized.
  pose proof (rem_range e (frame_duration settings) He Hd) as [Hlo Hhi].
  split.
  - apply Rmult_le_pos; [assumption | left; apply Rinv_0_lt_compat; assumption].
  - apply (Rmult_lt_reg_r (frame_duration settings)); [assumption |].
    replace (rem e (frame_duration settings) / frame_duration settings
             * frame_duration settings)
      with (rem e (frame_duration settings)) by (field; lra).
    lra.
Qed.

Lemma frame_normalized_in_unit_interval_witness :
  0 <= frame_normalized 3 (mkSettings (-2) 0 0 0 0 0 1 0) < 1.
Proof.
  apply (frame_normalized_in_unit_interval (mkSettings (-2) 0 0 0 0 0 1 0) 3).
  lra.
Defined.

(** *** The restart signal *)

Lemma render_same_signal (p : Z) (st : SceneState) :
  effectDep st = Some p -> step (Render p) st = st.
Proof.
  intros Hdep. cbn [step]. unfold useEffect_playSignal.
  rewrite Hdep, Z.eqb_refl. reflexivity.
Qed.

Lemma render_new_signal (previous p : Z) (st : SceneState) :
  effectDep st = Some previous -> previous <> p ->
  timeRef (step (Render p) st) = 0 /\
  effectDep (step (Render p) st) = Some p.
Proof.
  intros Hdep Hneq. cbn [step]. unfold useEffect_playSignal.
  rewrite Hdep. apply Z.eqb_neq in Hneq. rewrite Hneq. split; reflexivity.
Qed.

Lemma frame_keeps_dep (settings : AnimationSettings) (delta : R)
  (st : SceneState) :
  effectDep (step (Frame settings delta) st) = effectDep st.
Proof. reflexivity. Qed.

(** With the signal steady the accumulator is the sum of the deltas. *)
Lemma steady_run (p : Z) (evs : list Event) :
  forall st : SceneState,
    effectDep st = Some p -> signal_steady p evs = true ->
    effectDep (run evs st) = Some p /\
    timeRef (run evs st) = timeRef st + elapsed_of evs.
Proof.
  induction evs as [| ev evs IH]; intros st Hdep Hsteady.
  - cbn. split; [assumption | ring].
  - destruct ev as [q | settings delta]; cbn [signal_steady] in Hsteady.
    + apply andb_prop in Hsteady. destruct Hsteady as [Hq Hrest].
      apply Z.eqb_eq in Hq. subst q.
      change (run (Render p :: evs) st) with (run evs (step (Render p) st)).
      rewrite render_same_signal by assumption.
      cbn [elapsed_of]. apply IH; assumption.
    + change (run (Frame settings delta :: evs) st)
        with (run evs (step (Frame settings delta) st)).
      destruct (IH (step (Frame settings delta) st)) as [Hd Ht];
        [rewrite frame_keeps_dep; assumption | assumption |].
      split; [assumption |]. rewrite Ht. cbn [elapsed_of step].
      unfold useFrame_callback; cbn [timeRef]. ring.
Qed.

Lemma elapsed_of_nonneg (evs : list Event) :
  deltas_nonneg evs -> 0 <= elapsed_of evs.
Proof.
  induction evs as [| [q | settings delta] evs IH]; cbn; intros H.
  - lra.
  - apply IH; assumption.
  - destruct H as [Hd Hrest]. specialize (IH Hrest). lra.
Qed.

(** C7. A render that carries a changed [playSignal] sets the accumulator
    to 0 whatever it held, so the next frame evaluates at its own delta; a
    render with the signal unchanged leaves the scene as it is, every
    frame adds its delta, and over any trace with the signal steady the
    accumulator is its old value plus the deltas (never less, for
    non-negative deltas). *)
Theorem restart_is_edge_triggered (st : SceneState) (previous : Z) :
  effectDep st = Some previous ->
  (forall p : Z,
      p <> previous ->
      timeRef (step (Render p) st) = 0 /\
      forall (settings : AnimationSettings) (delta : R),
        timeRef (run [Render p; Frame settings delta] st) = delta) /\
  step (Render previous) st = st /\
  (forall (settings : AnimationSettings) (delta : R),
      timeRef (step (Frame settings delta) st) = timeRef st + delta) /\
  (forall evs : list Event,
      signal_steady previous evs = true ->
      timeRef (run evs st) = timeRef st + elapsed_of evs /\
      (deltas_nonneg evs -> timeRef st <= timeRef (run evs st))).
Proof.
  intros Hdep. split; [| split; [| split]].
  - intros p Hneq.
    destruct (render_new_signal previous p st Hdep) as [Hzero _];
      [congruence |].
    split; [exact Hzero |].
    intros settings delta. cbn [run fold_left].
    change (timeRef (step (Frame settings delta) (step (Render p) st)))
      with (timeRef (step (Render p) st) + delta).
    rewrite Hzero. ring.
  - apply render_same_signal; assumption.
  - reflexivity.
  - intros evs Hsteady.
    destruct (steady_run previous evs st Hdep Hsteady) as [_ Ht].
    split; [exact Ht |].
    intros Hnonneg. pose proof (elapsed_of_nonneg evs Hnonneg). lra.
Qed.

Lemma restart_is_edge_triggered_witness :
  let st :=
    mkScene 5 (Some 0%Z) (mkCamera (vec3 0 0 3.5) (vec3 0 0 0)) 1 None None in
  timeRef (step (Render 1%Z) st) = 0 /\
  timeRef
    (run [Frame short_loop 0.25; Render 0%Z; Frame short_loop 0.5] st) =
    5 + elapsed_of [Frame short_loop 0.25; Render 0%Z; Frame short_loop 0.5].
Proof.
  intros st.
  pose proof (restart_is_edge_triggered st 0%Z eq_refl) as [Hedge [_ [_ Hrun]]].
  split.
  - apply (Hedge 1%Z). discriminate.
  - apply (Hrun [Frame short_loop 0.25; Render 0%Z; Frame short_loop 0.5]).
    reflexivity.
Defined.

End SceneFacts.

(** ** The capture pipeline *)

Module AnimatorFacts.
Import Store Animator.

Lemma nth_error_snoc {A : Type} (xs : list A) (x : A) :
  nth_error (xs ++ [x]) (length xs) = Some x.
Proof. rewrite nth_error_app2 by lia. rewrite Nat.sub_diag. reflexivity. Qed.

Lemma alter_nth_snoc {A : Type} (f : A -> A) (xs : list A) (x : A) :
  alter_nth f (length xs) (xs ++ [x]) = xs ++ [f x].
Proof. induction xs as [| y xs IH]; cbn; [reflexivity | rewrite IH; reflexivity]. Qed.

Lemma nth_error_alter_nth {A : Type} (f : A -> A) (i j : nat) (xs : list A) :
  nth_error (alter_nth f i xs) j =
  if Nat.eqb i j then option_map f (nth_error xs j) else nth_error xs j.
Proof.
  revert i j. induction xs as [| x xs IH]; intros i j.
  - replace (alter_nth f i []) with (@nil A) by (destruct i; reflexivity).
    replace (nth_error [] j) with (@None A) by (destruct j; reflexivity).
    destruct (Nat.eqb i j); reflexivity.
  - destruct i as [| i], j as [| j]; cbn; try reflexivity. apply IH.
Qed.

Section WithPlatform.
Variable platform : Platform.

(** *** The codec choice *)

Lemma select_mimeType_first_supported :
  select_mimeType platform =
  match first_supported platform codec_preferences with
  | Some mime => mime
  | None => "video/webm"%string
  end.
Proof.
  unfold select_mimeType, first_supported, codec_preferences. cbn [find].
  destruct (isTypeSupported platform "video/webm;codecs=vp9");
    [reflexivity |].
  destruct (isTypeSupported platform "video/webm;codecs=vp8");
    [reflexivity |].
  destruct (isTypeSupported platform "video/webm"); reflexivity.
Qed.

Lemma select_mimeType_supported :
  isTypeSupported platform (select_mimeType platform) =
  match first_supported platform codec_preferences with
  | Some _ => true
  | None => false
  end.
Proof.
  unfold select_mimeType, first_supported, codec_preferences. cbn [find].
  destruct (isTypeSupported platform "video/webm;codecs=vp9") eqn:H9;
    [exact H9 |].
  destruct (isTypeSupported platform "video/webm;codecs=vp8") eqn:H8;
    [exact H8 |].
  destruct (isTypeSupported platform "video/webm") eqn:H;
    first [exact H | reflexivity].
Qed.

(** *** What [handleRecord] does *)

Lemma handleRecord_no_canvas (c : Component) :
  canvasRef c = None -> handleRecord platform c = (Returned tt, c).
Proof. intros H. unfold handleRecord, bind, read, ret. rewrite H. reflexivity. Qed.

Lemma handleRecord_recording (c : Component) :
  isRecording c = true -> handleRecord platform c = (Returned tt, c).
Proof.
  intros H. unfold handleRecord, bind, read, ret. rewrite H.
  destruct (canvasRef c); reflexivity.
Qed.

Lemma handleRecord_unsupported (c : Component) (canvas : Canvas) :
  canvasRef c = Some canvas -> isRecording c = false ->
  first_supported platform codec_preferences = None ->
  handleRecord platform c = (Thrown NotSupportedError, c).
Proof.
  intros Hcanvas Hidle Hnone.
  unfold handleRecord, bind, read, new_MediaRecorder.
  rewrite Hcanvas, Hidle. cbv zeta.
  rewrite select_mimeType_supported, Hnone. reflexivity.
Qed.

Lemma handleRecord_supported (c : Component) (canvas : Canvas) (mime : string) :
  canvasRef c = Some canvas -> isRecording c = false ->
  first_supported platform codec_preferences = Some mime ->
  handleRecord platform c = (Returned tt, started mime c).
Proof.
  intros Hcanvas Hidle Hsome.
  pose proof select_mimeType_supported as Hsup.
  pose proof select_mimeType_first_supported as Hsel.
  rewrite Hsome in Hsup, Hsel.
  unfold handleRecord, bind, read, new_MediaRecorder.
  rewrite Hcanvas, Hidle. cbv zeta. rewrite Hsup, Hsel.
  unfold start, setTimeout, emit, recorder_state, bind, read, update, ret.
  cbn. rewrite nth_error_snoc. cbn. rewrite alter_nth_snoc. cbn.
  unfold started. rewrite <- !app_assoc. reflexivity.
Qed.

(** *** What the platform calls do *)

Lemma stop_inactive (r : nat) (c : Component) :
  (forall m, nth_error (recorders c) r = Some m -> state m = inactive) ->
  stop r c = (Returned tt, c).
Proof.
  intros H. unfold stop, bind, recorder_state, read, ret.
  destruct (nth_error (recorders c) r) as [m |]; [| reflexivity].
  rewrite (H m eq_refl). reflexivity.
Qed.

Lemma stop_recording (r : nat) (m : MediaRecorder) (c : Component) :
  nth_error (recorders c) r = Some m -> state m = recording ->
  stop r c =
  (Returned tt,
   with_effects (effects c ++ [RecorderStop r])
     (with_recorders
        (alter_nth (fun m => mkRecorder (mimeType m) inactive true) r
           (recorders c)) c)).
Proof.
  intros Hm Hst. unfold stop, bind, recorder_state, read, update, emit, ret.
  rewrite Hm, Hst. reflexivity.
Qed.

(** *** Consistency of the recorders with [isRecording] *)

Lemma consistent_ext (c c' : Component) :
  isRecording c' = isRecording c -> recorderRef c' = recorderRef c ->
  recorders c' = recorders c -> consistent c -> consistent c'.
Proof.
  unfold consistent. intros -> -> ->. exact (fun H => H).
Qed.

Lemma consistent_mount : consistent mount.
Proof.
  unfold consistent; cbn. intros r m H. destruct r; discriminate.
Qed.

Lemma quiet_not_recording (m : MediaRecorder) : quiet m -> state m <> recording.
Proof. intros [H _]. rewrite H. discriminate. Qed.

(** While the component is consistent, a recorder that is not inactive is
    the one of [recorderRef], recording, during a capture. *)
Lemma consistent_active (c : Component) (r : nat) (m : MediaRecorder) :
  consistent c -> nth_error (recorders c) r = Some m -> state m <> inactive ->
  isRecording c = true /\ recorderRef c = Some r /\ state m = recording /\
  forall (r' : nat) (m' : MediaRecorder),
    r' <> r -> nth_error (recorders c) r' = Some m' -> quiet m'.
Proof.
  unfold consistent. intros Hc Hm Hact.
  destruct (isRecording c).
  - destruct Hc as (r0 & m0 & Href & Hm0 & Hlive & Hothers).
    destruct (Nat.eq_dec r r0) as [-> | Hneq].
    + rewrite Hm0 in Hm. injection Hm as ->.
      destruct Hlive as [[Hst _] | [Hst _]]; [| contradiction].
      split; [reflexivity | split; [assumption | split; assumption]].
    + destruct (Hothers r m Hneq Hm) as [Hst _]. contradiction.
  - destruct (Hc r m Hm) as [Hst _]. contradiction.
Qed.

Lemma consistent_stop (r : nat) (c : Component) :
  consistent c -> consistent (snd (stop r c)).
Proof.
  intros Hc.
  destruct (nth_error (recorders c) r) as [m |] eqn:Hm.
  - destruct (state m) eqn:Hst.
    + rewrite stop_inactive; [exact Hc |].
      intros m' Hm'. congruence.
    + destruct (consistent_active c r m Hc Hm) as (Hrec & Href & _ & Hothers);
        [congruence |].
      rewrite (stop_recording r m c Hm Hst). cbn [snd].
      unfold consistent. cbn. rewrite Hrec.
      exists r, (mkRecorder (mimeType m) inactive true).
      split; [exact Href |]. split.
      * rewrite nth_error_alter_nth, Nat.eqb_refl, Hm. reflexivity.
      * split; [right; split; reflexivity |].
        intros r' m' Hneq Hm'. rewrite nth_error_alter_nth in Hm'.
        apply not_eq_sym in Hneq. apply Nat.eqb_neq in Hneq.
        rewrite Hneq in Hm'. apply (Hothers r' m'); [| exact Hm'].
        apply Nat.eqb_neq in Hneq. congruence.
    + destruct (consistent_active c r m Hc Hm) as (_ & _ & Habs & _);
        congruence.
  - rewrite stop_inactive; [exact Hc |]. intros m Hm'. congruence.
Qed.

Lemma stopRecording_idle (c : Component) :
  consistent c -> isRecording c = false ->
  stopRecording c = (Returned tt, c).
Proof.
  intros Hc Hidle. unfold stopRecording, recorder_state, bind, read, ret. cbn beta iota.
  destruct (recorderRef c) as [r |]; [| reflexivity].
  destruct (nth_error (recorders c) r) as [m |] eqn:Hm; [| reflexivity].
  unfold consistent in Hc. rewrite Hidle in Hc.
  destruct (Hc r m Hm) as [Hst _]. rewrite Hst. reflexivity.
Qed.

Lemma consistent_stopRecording (c : Component) :
  consistent c -> consistent (snd (stopRecording c)).
Proof.
  intros Hc. unfold stopRecording, recorder_state, bind, read, ret. cbn beta iota.
  destruct (recorderRef c) as [r |]; [| exact Hc].
  destruct (nth_error (recorders c) r) as [m |] eqn:Hm; [| exact Hc].
  destruct (state m); try exact Hc. apply consistent_stop. exact Hc.
Qed.

Lemma consistent_timeout_fires (i : nat) (c : Component) :
  consistent c -> consistent (snd (timeout_fires i c)).
Proof.
  intros Hc. unfold timeout_fires, bind, read, update, ret.
  destruct (nth_error (timeouts c) i) as [t |]; [| exact Hc].
  apply consistent_stop.
  apply (consistent_ext c); try reflexivity. exact Hc.
Qed.

Lemma consistent_started (mime : string) (c : Component) :
  consistent c -> isRecording c = false -> consistent (started mime c).
Proof.
  unfold consistent at 1. intros Hc Hidle. rewrite Hidle in Hc.
  unfold consistent, started. cbn.
  exists (length (recorders c)), (mkRecorder mime recording false).
  split; [reflexivity |]. split; [apply nth_error_snoc |].
  split; [left; split; reflexivity |].
  intros r' m' Hneq Hm'.
  destruct (Nat.lt_ge_cases r' (length (recorders c))) as [Hlt | Hge].
  - rewrite nth_error_app1 in Hm' by assumption. exact (Hc r' m' Hm').
  - rewrite nth_error_app2 in Hm' by assumption.
    destruct (r' - length (recorders c))%nat as [| k] eqn:Hk; [lia |].
    destruct k; discriminate.
Qed.

Lemma consistent_handleRecord (c : Component) :
  consistent c -> consistent (snd (handleRecord platform c)).
Proof.
  intros Hc.
  destruct (canvasRef c) as [canvas |] eqn:Hcanvas;
    [| rewrite handleRecord_no_canvas by assumption; exact Hc].
  destruct (isRecording c) eqn:Hrec;
    [rewrite handleRecord_recording by assumption; exact Hc |].
  destruct (first_supported platform codec_preferences) as [mime |] eqn:Hsup.
  - rewrite (handleRecord_supported c canvas mime) by assumption.
    apply consistent_started; assumption.
  - rewrite (handleRecord_unsupported c canvas) by assumption. exact Hc.
Qed.

Lemma stop_task_idle (r : nat) (data : Blob) (c : Component) :
  (forall m, nth_error (recorders c) r = Some m -> stop_queued m = false) ->
  stop_task r data c = (Returned tt, c).
Proof.
  intros H. unfold stop_task, bind, read, ret.
  destruct (nth_error (recorders c) r) as [m |]; [| reflexivity].
  rewrite (H m eq_refl). reflexivity.
Qed.

Lemma stop_task_queued (r : nat) (m : MediaRecorder) (data : Blob)
  (c : Component) :
  nth_error (recorders c) r = Some m -> stop_queued m = true ->
  stop_task r data c = (Returned tt, finished r data c).
Proof.
  intros Hm Hq.
  unfold stop_task, ondataavailable, onstop, createObjectURL, emit,
    bind, read, update, ret.
  rewrite Hm, Hq. unfold finished, delivered.
  destruct (Nat.eqb (size data) 0); reflexivity.
Qed.

Lemma consistent_stop_task (r : nat) (data : Blob) (c : Component) :
  consistent c -> consistent (snd (stop_task r data c)).
Proof.
  intros Hc.
  destruct (nth_error (recorders c) r) as [m |] eqn:Hm;
    [| rewrite stop_task_idle; [exact Hc | intros m Hm'; congruence]].
  destruct (stop_queued m) eqn:Hq;
    [| rewrite stop_task_idle; [exact Hc | intros m' Hm'; congruence]].
  rewrite (stop_task_queued r m data c Hm Hq). cbn [snd].
  unfold consistent in Hc. unfold consistent, finished. cbn.
  intros r' m' Hm'. rewrite nth_error_alter_nth in Hm'.
  destruct (isRecording c).
  - destruct Hc as (r0 & m0 & _ & Hm0 & Hlive & Hothers).
    destruct (Nat.eq_dec r r0) as [-> | Hneq].
    + rewrite Hm0 in Hm. injection Hm as ->.
      destruct Hlive as [[_ Hq'] | [Hst _]]; [congruence |].
      destruct (Nat.eqb r0 r') eqn:Heq.
      * apply Nat.eqb_eq in Heq. subst r'. rewrite Hm0 in Hm'.
        injection Hm' as <-. split; [exact Hst | reflexivity].
      * apply Nat.eqb_neq in Heq. apply (Hothers r' m'); congruence.
    + destruct (Hothers r m Hneq Hm) as [_ Hq']. congruence.
  - destruct (Hc r m Hm) as [_ Hq']. congruence.
Qed.

Lemma consistent_step (ev : Event) (c : Component) :
  consistent c -> consistent (step platform ev c).
Proof.
  intros Hc. unfold step. destruct ev as
    [mapped | canvas | call | file | load | | | i | r data]; cbn [handler].
  - destruct mapped; apply (consistent_ext c); try reflexivity; exact Hc.
  - apply (consistent_ext c); try reflexivity; exact Hc.
  - apply (consistent_ext c); try reflexivity; exact Hc.
  - destruct file; apply (consistent_ext c); try reflexivity; exact Hc.
  - destruct load; apply (consistent_ext c); try reflexivity; exact Hc.
  - apply consistent_handleRecord; exact Hc.
  - apply consistent_stopRecording; exact Hc.
  - apply consistent_timeout_fires; exact Hc.
  - apply consistent_stop_task; exact Hc.
Qed.

Lemma reachable_consistent (c : Component) :
  reachable platform c -> consistent c.
Proof.
  induction 1 as [| ev c _ IH]; [apply consistent_mount |].
  apply consistent_step; exact IH.
Qed.

(** *** A capture from start to artifact *)

Lemma remove_nth_snoc {A : Type} (xs : list A) (x : A) :
  remove_nth (length xs) (xs ++ [x]) = xs.
Proof. induction xs as [| y xs IH]; cbn; [reflexivity | rewrite IH; reflexivity]. Qed.

Lemma timeout_fires_started (mime : string) (c : Component) :
  timeout_fires (length (timeouts c)) (started mime c) =
  (Returned tt,
   with_effects
     (effects (started mime c) ++ [RecorderStop (length (recorders c))])
     (with_recorders (recorders c ++ [mkRecorder mime inactive true])
        (with_timeouts (timeouts c) (started mime c)))).
Proof.
  unfold timeout_fires, bind, read, update, started.
  cbn -[stop]. rewrite nth_error_snoc. cbn -[stop]. rewrite remove_nth_snoc.
  rewrite (stop_recording _ (mkRecorder mime recording false));
    [| cbn; apply nth_error_snoc | reflexivity].
  cbn. rewrite alter_nth_snoc. reflexivity.
Qed.

Lemma capture_completes (c : Component) (canvas : Canvas) (mime : string)
  (data : Blob) :
  canvasRef c = Some canvas -> isRecording c = false ->
  first_supported platform codec_preferences = Some mime ->
  run platform
    [ClickRecord; TimeoutFires (length (timeouts c));
     StopTask (length (recorders c)) data] c =
  completed mime data c.
Proof.
  intros Hcanvas Hidle Hsup. cbn [run fold_left]. unfold step at 3.
  cbn [handler]. rewrite (handleRecord_supported c canvas mime) by assumption.
  cbn [snd]. unfold step at 2. cbn [handler].
  rewrite timeout_fires_started. cbn [snd]. unfold step. cbn [handler].
  rewrite (stop_task_queued _ (mkRecorder mime inactive true));
    [| cbn; apply nth_error_snoc | reflexivity].
  cbn [snd]. unfold finished, completed. cbn.
  rewrite alter_nth_snoc. cbn. rewrite <- !app_assoc. reflexivity.
Qed.

(** *** Codec selection *)

Lemma first_supported_none :
  first_supported platform codec_preferences = None <->
  forall mime : string,
    In mime codec_preferences -> isTypeSupported platform mime = false.
Proof.
  unfold first_supported. split.
  - intros Hnone mime Hin. exact (find_none _ _ Hnone mime Hin).
  - intros Hall.
    destruct (find (isTypeSupported platform) codec_preferences) as [mime |]
      eqn:Hfind; [| reflexivity].
    apply find_some in Hfind. destruct Hfind as [Hin Hsup].
    rewrite (Hall mime Hin) in Hsup. discriminate.
Qed.

(** C3. From the idle state with a canvas, [handleRecord] records with
    the first type of the list (VP9, VP8, plain WebM) the platform
    supports; it throws (the platform's [NotSupportedError]) exactly when
    none of the three is supported, and then the component is as before:
    nothing was started and [isRecording] is still false. *)
Theorem handleRecord_codec_fallback (c : Component) (canvas : Canvas) :
  canvasRef c = Some canvas -> isRecording c = false ->
  (forall mime : string,
      first_supported platform codec_preferences = Some mime ->
      handleRecord platform c = (Returned tt, started mime c) /\
      isRecording (started mime c) = true /\
      nth_error (recorders (started mime c)) (length (recorders c)) =
        Some (mkRecorder mime recording false)) /\
  ((exists (e : Exception) (c' : Component),
       handleRecord platform c = (Thrown e, c')) <->
   forall mime : string,
     In mime codec_preferences -> isTypeSupported platform mime = false) /\
  ((forall mime : string,
       In mime codec_preferences -> isTypeSupported platform mime = false) ->
   handleRecord platform c = (Thrown NotSupportedError, c) /\
   isRecording (snd (handleRecord platform c)) = false /\
   recorders (snd (handleRecord platform c)) = recorders c).
Proof.
  intros Hcanvas Hidle. split; [| split].
  - intros mime Hsup. split; [| split].
    + apply (handleRecord_supported c canvas mime); assumption.
    + reflexivity.
    + cbn. apply nth_error_snoc.
  - rewrite <- first_supported_none. split.
    + intros (e & c' & Hthrown).
      destruct (first_supported platform codec_preferences) as [mime |]
        eqn:Hsup; [| reflexivity].
      rewrite (handleRecord_supported c canvas mime) in Hthrown by assumption.
      discriminate.
    + intros Hnone. exists NotSupportedError, c.
      apply (handleRecord_unsupported c canvas); assumption.
  - intros Hall. apply first_supported_none in Hall.
    rewrite (handleRecord_unsupported c canvas) by assumption.
    split; [reflexivity | split; [exact Hidle | reflexivity]].
Qed.

(** *** The state machine *)

Lemma click_record_twice (c : Component) :
  run platform [ClickRecord; ClickRecord] c = run platform [ClickRecord] c.
Proof.
  cbn [run fold_left]. unfold step. cbn [handler].
  destruct (canvasRef c) as [canvas |] eqn:Hcanvas.
  - destruct (isRecording c) eqn:Hrec.
    + rewrite (handleRecord_recording c Hrec). cbn [snd].
      rewrite (handleRecord_recording c Hrec). reflexivity.
    + destruct (first_supported platform codec_preferences) as [mime |]
        eqn:Hsup.
      * rewrite (handleRecord_supported c canvas mime) by assumption.
        cbn [snd]. rewrite handleRecord_recording; reflexivity.
      * rewrite (handleRecord_unsupported c canvas) by assumption.
        cbn [snd]. rewrite (handleRecord_unsupported c canvas) by assumption.
        reflexivity.
  - rewrite (handleRecord_no_canvas c Hcanvas). cbn [snd].
    rewrite (handleRecord_no_canvas c Hcanvas). reflexivity.
Qed.

Lemma run_app (evs evs' : list Event) (c : Component) :
  run platform (evs ++ evs') c = run platform evs' (run platform evs c).
Proof. unfold run. apply fold_left_app. Qed.

Lemma completed_quiet (mime : string) (data : Blob) (c : Component) :
  consistent c -> isRecording c = false ->
  forall (r : nat) (m : MediaRecorder),
    nth_error (recorders (completed mime data c)) r = Some m -> quiet m.
Proof.
  unfold consistent. intros Hc Hidle. rewrite Hidle in Hc.
  intros r m Hm. cbn in Hm.
  destruct (Nat.lt_ge_cases r (length (recorders c))) as [Hlt | Hge].
  - rewrite nth_error_app1 in Hm by assumption. exact (Hc r m Hm).
  - rewrite nth_error_app2 in Hm by assumption.
    destruct (r - length (recorders c))%nat as [| k].
    + injection Hm as <-. split; reflexivity.
    + destruct k; discriminate.
Qed.

(** C4. In every reachable state: [handleRecord] during a recording
    returns without touching anything, and so does [stopRecording] while
    idle.  Two record clicks in a row are one: they leave one new recorder,
    and once its timer has fired and its stop task has run the component is
    idle again with one more object URL and no recorder left to deliver
    another. *)
Theorem capture_state_machine (c : Component) :
  reachable platform c ->
  (isRecording c = true -> handleRecord platform c = (Returned tt, c)) /\
  (isRecording c = false -> stopRecording c = (Returned tt, c)) /\
  run platform [ClickRecord; ClickRecord] c = run platform [ClickRecord] c /\
  (forall (canvas : Canvas) (mime : string) (data : Blob),
      canvasRef c = Some canvas -> isRecording c = false ->
      first_supported platform codec_preferences = Some mime ->
      let c2 := run platform [ClickRecord; ClickRecord] c in
      let c4 :=
        run platform
          [TimeoutFires (length (timeouts c));
           StopTask (length (recorders c)) data] c2 in
      isRecording c2 = true /\
      length (recorders c2) = S (length (recorders c)) /\
      isRecording c4 = false /\
      length (objectUrls c4) = S (length (objectUrls c)) /\
      forall (r : nat) (m : MediaRecorder),
        nth_error (recorders c4) r = Some m -> quiet m).
Proof.
  intros Hreach. pose proof (reachable_consistent c Hreach) as Hc.
  split; [apply handleRecord_recording |].
  split; [apply stopRecording_idle; exact Hc |].
  split; [apply click_record_twice |].
  intros canvas mime data Hcanvas Hidle Hsup c2 c4.
  assert (Hc2 : c2 = started mime c).
  { subst c2. rewrite click_record_twice. cbn [run fold_left]. unfold step.
    cbn [handler].
    rewrite (handleRecord_supported c canvas mime) by assumption.
    reflexivity. }
  assert (Hc4 : c4 = completed mime data c).
  { subst c4 c2. rewrite click_record_twice, <- run_app.
    apply (capture_completes c canvas); assumption. }
  rewrite Hc2, Hc4. split; [reflexivity |].
  split; [cbn; rewrite length_app; cbn; lia |].
  split; [reflexivity |].
  split; [cbn; rewrite length_app; cbn; lia |].
  apply completed_quiet; assumption.
Qed.

Lemma stopRecording_started (mime : string) (c : Component) :
  stopRecording (started mime c) =
  (Returned tt,
   with_effects
     (effects (started mime c) ++ [RecorderStop (length (recorders c))])
     (with_recorders (recorders c ++ [mkRecorder mime inactive true])
        (started mime c))).
Proof.
  unfold stopRecording, recorder_state, bind, read, started.
  cbn -[stop]. rewrite nth_error_snoc. cbn -[stop].
  rewrite (stop_recording _ (mkRecorder mime recording false));
    [| cbn; apply nth_error_snoc | reflexivity].
  cbn. rewrite alter_nth_snoc. reflexivity.
Qed.

(** Stopped by hand before the timer: the same end, and the late timer
    finds an inactive recorder. *)
Lemma capture_stopped_early (c : Component) (canvas : Canvas) (mime : string)
  (data : Blob) :
  canvasRef c = Some canvas -> isRecording c = false ->
  first_supported platform codec_preferences = Some mime ->
  run platform
    [ClickRecord; ClickStop; StopTask (length (recorders c)) data;
     TimeoutFires (length (timeouts c))] c =
  completed mime data c.
Proof.
  intros Hcanvas Hidle Hsup. cbn [run fold_left]. unfold step at 4.
  cbn [handler]. rewrite (handleRecord_supported c canvas mime) by assumption.
  cbn [snd]. unfold step at 3. cbn [handler].
  rewrite stopRecording_started. cbn [snd]. unfold step at 2. cbn [handler].
  rewrite (stop_task_queued _ (mkRecorder mime inactive true));
    [| cbn; apply nth_error_snoc | reflexivity].
  cbn [snd]. unfold step. cbn [handler].
  unfold timeout_fires, bind, read, update, finished, started.
  cbn -[stop]. rewrite nth_error_snoc. cbn -[stop].
  rewrite remove_nth_snoc, alter_nth_snoc.
  rewrite stop_inactive.
  - unfold completed. cbn. rewrite <- !app_assoc. reflexivity.
  - cbn. rewrite nth_error_snoc. intros m Hm. injection Hm as <-. reflexivity.
Qed.

(** C5. A capture started from the idle state bumps [playSignal] before
    it calls [recorder.start()] (so the scene's next render resets the
    accumulator), and registers one timer of [settings.duration * 1000]
    milliseconds whose callback stops the recorder; when that timer fires
    and the queued stop task runs, the component is idle again and
    [downloadUrl] is the object URL of one blob, with no further call.
    Stopping by hand first ends in the same state: the late timer finds
    the recorder inactive. *)
Theorem capture_restarts_and_stops_itself (c : Component) (canvas : Canvas)
  (mime : string) :
  canvasRef c = Some canvas -> isRecording c = false ->
  first_supported platform codec_preferences = Some mime ->
  let recorder := length (recorders c) in
  let seconds := Store.duration (Store.settings (store c)) in
  let c1 := step platform ClickRecord c in
  effects c1 =
    effects c ++ [SetPlaySignal; RecorderStart recorder;
                  SetTimeout recorder (seconds * 1000)] /\
  playSignal c1 = (playSignal c + 1)%Z /\
  (forall scene : Scene.SceneState,
      Scene.effectDep scene = Some (playSignal c) ->
      Scene.timeRef (Scene.step (Scene.Render (playSignal c1)) scene) = 0) /\
  timeouts c1 = timeouts c ++ [mkTimeout recorder (seconds * 1000)] /\
  forall data : Blob,
    let c3 :=
      run platform
        [TimeoutFires (length (timeouts c)); StopTask recorder data] c1 in
    isRecording c3 = false /\
    nth_error (recorders c3) recorder = Some (mkRecorder mime inactive false) /\
    timeouts c3 = timeouts c /\
    downloadUrl c3 = Some (length (objectUrls c)) /\
    objectUrls c3 =
      objectUrls c ++ [new_Blob (delivered data []) "video/webm"] /\
    run platform
      [ClickStop; StopTask recorder data; TimeoutFires (length (timeouts c))]
      c1 = c3.
Proof.
  intros Hcanvas Hidle Hsup recorder seconds c1.
  assert (Hc1 : c1 = started mime c).
  { subst c1. unfold step. cbn [handler].
    rewrite (handleRecord_supported c canvas mime) by assumption.
    reflexivity. }
  split; [rewrite Hc1; reflexivity |].
  split; [rewrite Hc1; reflexivity |].
  split.
  { intros scene Hdep. rewrite Hc1. cbn [started playSignal].
    apply (SceneFacts.render_new_signal (playSignal c)); [exact Hdep | lia]. }
  split; [rewrite Hc1; reflexivity |].
  intros data c3.
  assert (Hc3 : c3 = completed mime data c).
  { subst c3 c1.
    change (run platform
              [TimeoutFires (length (timeouts c)); StopTask recorder data]
              (step platform ClickRecord c))
      with (run platform
              [ClickRecord; TimeoutFires (length (timeouts c));
               StopTask (length (recorders c)) data] c).
    apply (capture_completes c canvas); assumption. }
  rewrite Hc3. split; [reflexivity |].
  split; [cbn; apply nth_error_snoc |].
  split; [reflexivity | split; [reflexivity | split; [reflexivity |]]].
  subst c1.
  change (run platform
            [ClickStop; StopTask recorder data;
             TimeoutFires (length (timeouts c))]
            (step platform ClickRecord c))
    with (run platform
            [ClickRecord; ClickStop; StopTask (length (recorders c)) data;
             TimeoutFires (length (timeouts c))] c).
  apply (capture_stopped_early c canvas); assumption.
Qed.

End WithPlatform.

Lemma handleRecord_codec_fallback_witness :
  handleRecord vp8_platform ready =
    (Returned tt, started "video/webm;codecs=vp8" ready) /\
  handleRecord no_codec_platform ready = (Thrown NotSupportedError, ready).
Proof.
  split.
  - apply (proj1 (handleRecord_codec_fallback vp8_platform ready 0%nat
                    eq_refl eq_refl)).
    reflexivity.
  - apply (proj2 (proj2 (handleRecord_codec_fallback no_codec_platform ready
                           0%nat eq_refl eq_refl))).
    intros mime _. reflexivity.
Defined.

Lemma ready_reachable : reachable vp8_platform ready.
Proof.
  exact (reachable_step vp8_platform (RegisterCanvas 0%nat) _
           (reachable_step vp8_platform (BootstrapSettled (Some image_a)) _
              (reachable_mount vp8_platform))).
Qed.

Lemma capture_state_machine_witness :
  stopRecording ready = (Returned tt, ready) /\
  handleRecord vp8_platform (step vp8_platform ClickRecord ready) =
    (Returned tt, step vp8_platform ClickRecord ready) /\
  length
    (objectUrls
       (run vp8_platform [TimeoutFires 0; StopTask 0 clip]
          (run vp8_platform [ClickRecord; ClickRecord] ready))) = 1%nat.
Proof.
  split; [| split].
  - apply (proj1 (proj2 (capture_state_machine vp8_platform ready
                           ready_reachable))).
    reflexivity.
  - apply (proj1 (capture_state_machine vp8_platform
                    (step vp8_platform ClickRecord ready)
                    (reachable_step vp8_platform ClickRecord ready
                       ready_reachable))).
    reflexivity.
  - exact (proj1 (proj2 (proj2 (proj2
             (proj2 (proj2 (proj2 (capture_state_machine vp8_platform ready
                                     ready_reachable)))
                0%nat "video/webm;codecs=vp8"%string clip
                eq_refl eq_refl eq_refl))))).
Defined.

Lemma capture_restarts_and_stops_itself_witness :
  effects (step vp8_platform ClickRecord ready) =
    [SetPlaySignal; RecorderStart 0; SetTimeout 0 (8 * 1000)] /\
  downloadUrl
    (run vp8_platform [TimeoutFires 0; StopTask 0 clip]
       (step vp8_platform ClickRecord ready)) = Some 0%nat.
Proof.
  pose proof (capture_restarts_and_stops_itself vp8_platform ready 0%nat
                "video/webm;codecs=vp8" eq_refl eq_refl eq_refl)
    as (Heffects & _ & _ & _ & Hstop).
  split.
  - exact Heffects.
  - exact (proj1 (proj2 (proj2 (proj2 (Hstop clip))))).
Defined.

(** C6 (the code falls short of it). Replacing the active image does
    not invalidate a capture in flight.  With [image_a] active a capture is
    started; a file is chosen and prepares to [image_b], which becomes the
    active image: [handleFileChange] has cleared the download link but the
    recorder started under [image_a] is still recording.  When its timer
    fires and its stop task runs, [downloadUrl] is the object URL of the
    blob recorded for [image_a], with [image_b] active. *)
Theorem upload_during_capture_keeps_artifact :
  let c1 := run vp8_platform [ClickRecord] ready in
  let c2 :=
    run vp8_platform
      [FileChange (Some "b.png"%string);
       ReaderOnload (PrepareResolved image_b)] c1 in
  let c3 := run vp8_platform [TimeoutFires 0; StopTask 0 clip] c2 in
  (prepared c1 = Some image_a /\ isRecording c1 = true /\
   recorderRef c1 = Some 0%nat) /\
  (prepared c2 = Some image_b /\ isRecording c2 = true /\
   downloadUrl c2 = None /\ recorderRef c2 = Some 0%nat /\
   nth_error (recorders c2) 0 =
     Some (mkRecorder "video/webm;codecs=vp8" recording false) /\
   timeouts c2 = timeouts c1) /\
  (prepared c3 = Some image_b /\ isRecording c3 = false /\
   downloadUrl c3 = Some 0%nat /\
   nth_error (objectUrls c3) 0 = Some (new_Blob [clip] "video/webm")).
Proof.
  cbv zeta.
  split; [split; [| split]; vm_compute; reflexivity |].
  split; [| split; [| split; [| split]]; vm_compute; reflexivity].
  split; [| split; [| split; [| split; [| split]]]]; vm_compute; reflexivity.
Qed.

End AnimatorFacts.

(** ** More on the parameter store *)

Module StoreLaws.
Import Store.

(** X1. Two writes to the same key leave the later value; writes to
    different keys can be swapped. *)
Theorem setValue_overwrites_and_commutes (st : AnimatorState) (k1 k2 : Key)
  (v1 v2 : R) :
  setValue k1 v2 (setValue k1 v1 st) = setValue k1 v2 st /\
  (k1 <> k2 ->
   setValue k2 v2 (setValue k1 v1 st) = setValue k1 v1 (setValue k2 v2 st)).
Proof.
  split.
  - destruct k1; reflexivity.
  - intros Hneq. destruct k1, k2; try reflexivity; contradiction Hneq; reflexivity.
Qed.

Lemma setValue_overwrites_and_commutes_witness :
  setValue Kzoom 0.3 (setValue Ksway 1 create) =
  setValue Ksway 1 (setValue Kzoom 0.3 create).
Proof.
  apply (proj2 (setValue_overwrites_and_commutes create Ksway Kzoom 1 0.3)).
  discriminate.
Defined.

(** X2. Writing back the value a key already has changes nothing, and a
    write that changes nothing wrote the value the key had. *)
Theorem setValue_same_value (st : AnimatorState) (key : Key) (value : R) :
  setValue key value st = st <-> field key (settings st) = value.
Proof.
  destruct st as [s]. destruct s as [du de sw zo ro wa ex vi].
  split.
  - intros Heq. apply (f_equal (fun st => field key (settings st))) in Heq.
    destruct key; cbn in Heq; symmetry; exact Heq.
  - intros Hval. destruct key; cbn in Hval; subst value; reflexivity.
Qed.

(** X3. A reset forgets what came before it: the store after any calls,
    a reset, and further calls is the store after those further calls on a
    fresh store. *)
Theorem reset_forgets_history (before after : list Call) (st : AnimatorState) :
  calls (before ++ CallReset :: after) st = calls after create.
Proof.
  unfold calls. rewrite fold_left_app. reflexivity.
Qed.

End StoreLaws.

(** ** More on the motion cycle *)

Module SceneLaws.
Import JsNum JsNumFacts Store Scene SceneFacts.

Lemma Rabs_sin_le (a : R) : Rabs (sin a) <= 1.
Proof. apply Rabs_le. pose proof (SIN_bound a). lra. Qed.

Lemma Rabs_cos_le (a : R) : Rabs (cos a) <= 1.
Proof. apply Rabs_le. pose proof (COS_bound a). lra. Qed.

Lemma Rabs_sin_scaled (a s : R) : Rabs (sin a * s) <= Rabs s.
Proof.
  rewrite Rabs_mult. pose proof (Rabs_sin_le a). pose proof (Rabs_pos s).
  pose proof (Rabs_pos (sin a)). nra.
Qed.

Lemma Rabs_cos_scaled (a s : R) : Rabs (cos a * s) <= Rabs s.
Proof.
  rewrite Rabs_mult. pose proof (Rabs_cos_le a). pose proof (Rabs_pos s).
  pose proof (Rabs_pos (cos a)). nra.
Qed.

Lemma Rabs_scale (k a : R) : 0 <= k -> Rabs (a * k) = k * Rabs a.
Proof.
  intros Hk. rewrite Rabs_mult, (Rabs_right k) by lra. ring.
Qed.

(** X4. An amplitude of zero switches its motion off at every instant:
    no sway leaves the camera on the axis, no zoom leaves it at z = 3.1, and
    no roll, wave or depth leave the mesh unrotated, in its plane and flat. *)
Theorem zero_amplitude_no_motion (settings : AnimationSettings) (delta : R)
  (st : SceneState) :
  let st' := useFrame_callback settings delta st in
  (Store.sway settings = 0 ->
   x (cam_position (camera st')) = 0 /\ y (cam_position (camera st')) = 0) /\
  (Store.zoom settings = 0 -> z (cam_position (camera st')) = 3.1) /\
  forall mesh : Mesh,
    meshRef st' = Some mesh ->
    (Store.roll settings = 0 -> rotation_z mesh = 0) /\
    (Store.wave settings = 0 -> position_z mesh = 0) /\
    (Store.depth settings = 0 -> displacementScale mesh = 0).
Proof.
  cbv zeta. rewrite useFrame_callback_unfold. cbv zeta.
  cbn [camera cam_position x y z meshRef].
  split; [| split].
  - intros ->. split; ring.
  - intros ->. ring.
  - intros mesh Hmesh. destruct (meshRef st); [| discriminate].
    cbn [option_map] in Hmesh. injection Hmesh as <-.
    cbn [rotation_z position_z displacementScale].
    split; [| split]; intros ->; ring.
Qed.

Lemma zero_amplitude_no_motion_witness :
  x (cam_position
       (camera (useFrame_callback (mkSettings 8 0.35 0 0.12 0.08 0.15 1.05 0.25)
                  0.5 fresh_scene))) = 0.
Proof.
  apply (proj1 (zero_amplitude_no_motion
                  (mkSettings 8 0.35 0 0.12 0.08 0.15 1.05 0.25) 0.5
                  fresh_scene)).
  reflexivity.
Defined.

(** X5. The amplitudes bound the motion at every instant: the camera is
    within [0.8 |sway|] of the axis sideways and [0.24 |sway|] upwards,
    within [3.2 |zoom|] of z = 3.1, and the mesh turns by at most [|roll|]
    and moves by at most [0.45 |wave|]. *)
Theorem motion_within_amplitudes (settings : AnimationSettings) (delta : R)
  (st : SceneState) :
  let st' := useFrame_callback settings delta st in
  Rabs (x (cam_position (camera st'))) <= 0.8 * Rabs (Store.sway settings) /\
  Rabs (y (cam_position (camera st'))) <= 0.24 * Rabs (Store.sway settings) /\
  Rabs (z (cam_position (camera st')) - 3.1)
    <= 3.2 * Rabs (Store.zoom settings) /\
  forall mesh : Mesh,
    meshRef st' = Some mesh ->
    Rabs (rotation_z mesh) <= Rabs (Store.roll settings) /\
    Rabs (position_z mesh) <= 0.45 * Rabs (Store.wave settings).
Proof.
  cbv zeta. rewrite useFrame_callback_unfold. cbv zeta.
  cbn [camera cam_position x y z meshRef].
  set (cycle := frame_cycle (timeRef st + delta) settings).
  split; [| split; [| split]].
  - rewrite Rabs_scale by lra.
    pose proof (Rabs_sin_scaled cycle (Store.sway settings)). lra.
  - replace (cos (cycle * 0.8) * Store.sway settings * 0.6 * 0.4)
      with (cos (cycle * 0.8) * Store.sway settings * 0.24) by lra.
    rewrite Rabs_scale by lra.
    pose proof (Rabs_cos_scaled (cycle * 0.8) (Store.sway settings)). lra.
  - replace (3.1 + sin (cycle * 0.5) * Store.zoom settings * 3.2 - 3.1)
      with (sin (cycle * 0.5) * Store.zoom settings * 3.2) by ring.
    rewrite Rabs_scale by lra.
    pose proof (Rabs_sin_scaled (cycle * 0.5) (Store.zoom settings)). lra.
  - intros mesh Hmesh. destruct (meshRef st); [| discriminate].
    cbn [option_map] in Hmesh. injection Hmesh as <-.
    cbn [rotation_z position_z]. split.
    + apply Rabs_sin_scaled.
    + rewrite Rabs_scale by lra.
      pose proof (Rabs_sin_scaled (cycle * 1.4) (Store.wave settings)). lra.
Qed.

Lemma motion_within_amplitudes_witness :
  match
    meshRef
      (useFrame_callback (Store.settings create) 1
         (mkScene 1 (Some 0%Z) (mkCamera (vec3 0 0 3.5) (vec3 0 0 0)) 1
            (Some (mkMesh 0 0 0.35)) None))
  with
  | Some mesh => Rabs (rotation_z mesh) <= Rabs 0.08
  | None => False
  end.
Proof.
  destruct (meshRef _) as [mesh |] eqn:Hmesh.
  - exact (proj1 (proj2 (proj2 (proj2
             (motion_within_amplitudes (Store.settings create) 1 _)))
             mesh Hmesh)).
  - discriminate Hmesh.
Defined.

(** X6. A frame moves the lights and nothing else of the rig: it keeps
    their number and their intensities, and every light ends up inside the
    box [[-4, 4] x [-1.5, 4.5] x [-1, 9]]; a scene without a mesh or
    without a rig still has none after the frame. *)
Theorem lights_stay_in_box (settings : AnimationSettings) (delta : R)
  (st : SceneState) :
  let st' := useFrame_callback settings delta st in
  (meshRef st = None -> meshRef st' = None) /\
  (lightRig st = None -> lightRig st' = None) /\
  forall children : list PointLight,
    lightRig st = Some children ->
    exists children' : list PointLight,
      lightRig st' = Some children' /\
      map intensity children' = map intensity children /\
      forall child : PointLight,
        In child children' ->
        -4 <= x (light_position child) <= 4 /\
        -1.5 <= y (light_position child) <= 4.5 /\
        -1 <= z (light_position child) <= 9.
Proof.
  cbv zeta. rewrite useFrame_callback_unfold. cbv zeta.
  cbn [meshRef lightRig].
  split; [intros ->; reflexivity |].
  split; [intros ->; reflexivity |].
  intros children ->. cbn [option_map].
  set (cycle := frame_cycle (timeRef st + delta) settings).
  exists (forEach_child cycle 0 children).
  split; [reflexivity |]. split.
  - generalize 0%nat. induction children as [| child rest IH]; intros start.
    + reflexivity.
    + cbn. f_equal. apply IH.
  - intros child Hin. apply In_nth_error in Hin. destruct Hin as [i Hnth].
    rewrite forEach_child_nth in Hnth.
    destruct (nth_error children i) as [c0 |]; [| discriminate].
    cbn [option_map] in Hnth. injection Hnth as <-.
    cbn [light_position x y z]. unfold Math_sin, Math_cos.
    cbn [Nat.add]. set (t := cycle + INR i * 2).
    pose proof (SIN_bound (t * 0.35)). pose proof (COS_bound (t * 0.22)).
    pose proof (SIN_bound (t * 0.18)). repeat split; lra.
Qed.

Lemma lights_stay_in_box_witness :
  exists children' : list PointLight,
    lightRig
      (useFrame_callback (Store.settings create) 1
         (mkScene 0 (Some 0%Z) (mkCamera (vec3 0 0 3.5) (vec3 0 0 0)) 1 None
            (Some [mkLight 2 (vec3 0 0 0); mkLight 1.6 (vec3 9 9 9)]))) =
      Some children' /\
    map intensity children' = [2; 1.6].
Proof.
  destruct (proj2 (proj2 (lights_stay_in_box (Store.settings create) 1
                            (mkScene 0 (Some 0%Z)
                               (mkCamera (vec3 0 0 3.5) (vec3 0 0 0)) 1 None
                               (Some [mkLight 2 (vec3 0 0 0);
                                      mkLight 1.6 (vec3 9 9 9)]))))
              [mkLight 2 (vec3 0 0 0); mkLight 1.6 (vec3 9 9 9)] eq_refl)
    as (children' & Hrig & Hint & _).
  exists children'. split; [exact Hrig | exact Hint].
Defined.

Lemma step_keeps_time_nonneg (ev : Event) (st : SceneState) :
  0 <= timeRef st ->
  match ev with Render _ => True | Frame _ delta => 0 <= delta end ->
  0 <= timeRef (step ev st).
Proof.
  intros Ht Hev. destruct ev as [p | settings delta]; cbn [step].
  - unfold useEffect_playSignal.
    destruct (effectDep st) as [q |]; [destruct (Z.eqb q p) |];
      cbn [timeRef]; lra.
  - unfold useFrame_callback; cbn [timeRef]. lra.
Qed.

Lemma normalized_range (e : R) (settings : AnimationSettings) :
  0 <= e -> 0 <= frame_normalized e settings < 1.
Proof.
  intros He. pose proof (frame_duration_pos settings) as Hd.
  unfold frame_normalized.
  pose proof (rem_range e (frame_duration settings) He Hd) as [Hlo Hhi].
  split.
  - apply Rmult_le_pos; [assumption | left; apply Rinv_0_lt_compat; assumption].
  - apply (Rmult_lt_reg_r (frame_duration settings)); [assumption |].
    replace (rem e (frame_duration settings) / frame_duration settings
             * frame_duration settings)
      with (rem e (frame_duration settings)) by (field; lra).
    lra.
Qed.

(** X7. Whatever renders and restarts happen in between, frames with
    non-negative deltas keep the accumulator non-negative, so the phase of
    every frame lies in [[0, 1)] and its cycle in [[0, 2 pi)]. *)
Theorem accumulator_never_negative (evs : list Event) (st : SceneState)
  (settings : AnimationSettings) :
  0 <= timeRef st -> deltas_nonneg evs ->
  0 <= timeRef (run evs st) /\
  0 <= frame_normalized (timeRef (run evs st)) settings < 1 /\
  0 <= frame_cycle (timeRef (run evs st)) settings < 2 * PI.
Proof.
  intros Ht Hevs.
  assert (Hrun : 0 <= timeRef (run evs st)).
  { revert st Ht. induction evs as [| ev evs IH]; intros st Ht; [exact Ht |].
    change (run (ev :: evs) st) with (run evs (step ev st)).
    destruct ev as [p | s delta]; cbn [deltas_nonneg] in Hevs.
    - apply IH; [exact Hevs |]. apply step_keeps_time_nonneg; [exact Ht | exact I].
    - destruct Hevs as [Hdelta Hrest].
      apply IH; [exact Hrest |].
      apply step_keeps_time_nonneg; [exact Ht | exact Hdelta]. }
  split; [exact Hrun |].
  pose proof (normalized_range (timeRef (run evs st)) settings Hrun) as Hn.
  split; [exact Hn |].
  unfold frame_cycle, Math_PI. pose proof PI_RGT_0. nra.
Qed.

Lemma accumulator_never_negative_witness :
  0 <= timeRef
         (run [Frame short_loop 0.25; Render 7%Z; Frame short_loop 0.5]
            fresh_scene).
Proof.
  apply (accumulator_never_negative
           [Frame short_loop 0.25; Render 7%Z; Frame short_loop 0.5]
           fresh_scene short_loop).
  - cbn [fresh_scene timeRef]. lra.
  - cbn [deltas_nonneg]. repeat split; lra.
Defined.

(** X8. A restart forgets the past: after any events, a render that
    carries a signal other than the one the effect last ran for, followed by
    events under that signal, leaves in the accumulator the deltas since
    that render and nothing else.  The first render of a scene is such a
    render. *)
Theorem restart_forgets_history (before after : list Event) (p : Z)
  (st : SceneState) :
  effectDep (run before st) <> Some p ->
  signal_steady p after = true ->
  timeRef (run (before ++ Render p :: after) st) = elapsed_of after.
Proof.
  intros Hdep Hsteady. unfold run at 1. rewrite fold_left_app.
  fold (run before st). cbn [fold_left].
  fold (run after (step (Render p) (run before st))).
  set (mid := step (Render p) (run before st)).
  assert (Hmid : effectDep mid = Some p /\ timeRef mid = 0).
  { subst mid. cbn [step]. unfold useEffect_playSignal.
    destruct (effectDep (run before st)) as [q |]; [| split; reflexivity].
    destruct (Z.eqb q p) eqn:Hq; [| split; reflexivity].
    apply Z.eqb_eq in Hq. subst q. contradiction Hdep. reflexivity. }
  destruct Hmid as [Hmdep Hmtime].
  destruct (steady_run p after mid Hmdep Hsteady) as [_ Htime].
  rewrite Htime, Hmtime. ring.
Qed.

Lemma restart_forgets_history_witness :
  timeRef
    (run ([Frame short_loop 3] ++ Render 1%Z :: [Frame short_loop 0.5])
       fresh_scene) =
  elapsed_of [Frame short_loop 0.5].
Proof.
  apply (restart_forgets_history [Frame short_loop 3] [Frame short_loop 0.5]
           1%Z fresh_scene).
  - cbn. discriminate.
  - reflexivity.
Defined.

End SceneLaws.

(** ** The backdrop and the dust *)

Module StudioFacts.
Import JsNum Store Studio.

Lemma frames_snoc (callback : R -> option Euler -> option Euler)
  (deltas : list R) (delta : R) (ref : option Euler) :
  frames callback (deltas ++ [delta]) ref =
  callback delta (frames callback deltas ref).
Proof. unfold frames. rewrite fold_left_app. reflexivity. Qed.

Lemma sum_snoc (deltas : list R) (delta : R) :
  sum (deltas ++ [delta]) = sum deltas + delta.
Proof.
  induction deltas as [| d deltas IH]; cbn; [ring | rewrite IH; ring].
Qed.

(** X9. The backdrop turns by the number of frames drawn, not by the time
    they took: after the frames of [deltas] its z-rotation has advanced by
    0.0004 per frame, whatever the deltas, and its other angles are as they
    were; a backdrop that is not attached stays so. *)
Theorem backdrop_turns_per_frame (deltas : list R) (ref : option Euler) :
  frames Backdrop_frame deltas ref =
  match ref with
  | None => None
  | Some rotation =>
      Some {| rotation_x := rotation_x rotation;
              rotation_y := rotation_y rotation;
              rotation_z :=
                rotation_z rotation + 0.0004 * INR (length deltas) |}
  end.
Proof.
  induction deltas as [| delta deltas IH] using rev_ind.
  - destruct ref as [[rx ry rz] |]; cbn; [| reflexivity].
    do 2 f_equal. ring.
  - rewrite frames_snoc, IH. destruct ref as [rotation |]; [| reflexivity].
    cbn [Backdrop_frame rotation_x rotation_y rotation_z].
    rewrite length_app, Nat.add_comm. cbn [length Nat.add].
    rewrite S_INR. do 2 f_equal. ring.
Qed.

(** X10. The dust turns by the time elapsed, however it is cut into
    frames: after the frames of [deltas] its y-rotation has advanced by 0.05
    and its z-rotation by 0.02 times the sum of the deltas. *)
Theorem dust_turns_with_time (deltas : list R) (pointsRef : option Euler) :
  frames FloatingDust_frame deltas pointsRef =
  match pointsRef with
  | None => None
  | Some rotation =>
      Some {| rotation_x := rotation_x rotation;
              rotation_y := rotation_y rotation + 0.05 * sum deltas;
              rotation_z := rotation_z rotation + 0.02 * sum deltas |}
  end.
Proof.
  induction deltas as [| delta deltas IH] using rev_ind.
  - destruct pointsRef as [[rx ry rz] |]; cbn; [| reflexivity].
    f_equal. f_equal; ring.
  - rewrite frames_snoc, IH. destruct pointsRef as [rotation |]; [| reflexivity].
    cbn [FloatingDust_frame rotation_x rotation_y rotation_z].
    rewrite sum_snoc. f_equal. f_equal; ring.
Qed.

(** *** The particle positions *)

Lemma length_alter_nth {A : Type} (f : A -> A) (i : nat) (xs : list A) :
  length (Animator.alter_nth f i xs) = length xs.
Proof.
  revert i. induction xs as [| x xs IH]; intros [| i]; cbn;
    try reflexivity. rewrite IH. reflexivity.
Qed.

Section Float32.
Variable fround : R -> R.

Lemma length_write (i : nat) (v : R) (array : list R) :
  length (write fround i v array) = length array.
Proof. apply length_alter_nth. Qed.

Lemma nth_error_write (i j : nat) (v : R) (array : list R) :
  nth_error (write fround i v array) j =
  if Nat.eqb i j then option_map (fun _ => fround v) (nth_error array j)
  else nth_error array j.
Proof. apply AnimatorFacts.nth_error_alter_nth. Qed.

Lemma nth_error_write_other (i j : nat) (v : R) (array : list R) :
  i <> j -> nth_error (write fround i v array) j = nth_error array j.
Proof.
  intros Hneq. rewrite nth_error_write.
  apply Nat.eqb_neq in Hneq. rewrite Hneq. reflexivity.
Qed.

Lemma nth_error_write_same (i : nat) (v : R) (array : list R) :
  (i < length array)%nat ->
  nth_error (write fround i v array) i = Some (fround v).
Proof.
  intros Hlt. rewrite nth_error_write, Nat.eqb_refl.
  destruct (nth_error array i) eqn:Hnth; [reflexivity |].
  apply nth_error_None in Hnth. lia.
Qed.

Lemma length_positions_loop (random : nat -> R) (count i : nat)
  (array : list R) :
  length (positions_loop fround random count i array) = length array.
Proof.
  revert i array. induction count as [| count IH]; intros i array; cbn.
  - reflexivity.
  - rewrite IH, !length_write. reflexivity.
Qed.

(** The rounds from [i] on leave the entries before [3 i] alone. *)
Lemma positions_loop_before (random : nat -> R) (count i j : nat)
  (array : list R) :
  (j < i * 3)%nat ->
  nth_error (positions_loop fround random count i array) j =
  nth_error array j.
Proof.
  revert i array. induction count as [| count IH]; intros i array Hj.
  - reflexivity.
  - cbn [positions_loop]. rewrite IH by lia.
    rewrite !nth_error_write_other by lia. reflexivity.
Qed.

Lemma positions_loop_point (random : nat -> R) (count i k : nat)
  (array : list R) :
  (i <= k < i + count)%nat -> (k * 3 + 2 < length array)%nat ->
  let angle := random (3 * k)%nat * Math_PI * 2 in
  let radius := random (3 * k + 1)%nat * 6.5 + 0.5 in
  let y := random (3 * k + 2)%nat * 3 - 1.5 in
  let result := positions_loop fround random count i array in
  nth_error result (k * 3) = Some (fround (Math_cos angle * radius)) /\
  nth_error result (k * 3 + 1) = Some (fround y) /\
  nth_error result (k * 3 + 2) =
    Some (fround (Math_sin angle * radius - 2)).
Proof.
  revert i array. induction count as [| count IH]; intros i array Hk Hlen;
    [lia |].
  cbv zeta. cbn [positions_loop].
  destruct (Nat.eq_dec k i) as [-> | Hneq].
  - rewrite !positions_loop_before by lia.
    rewrite (nth_error_write_other (i * 3 + 2) (i * 3)) by lia.
    rewrite (nth_error_write_other (i * 3 + 1) (i * 3)) by lia.
    rewrite (nth_error_write_other (i * 3 + 2) (i * 3 + 1)) by lia.
    rewrite !nth_error_write_same by (rewrite ?length_write; lia).
    repeat split; reflexivity.
  - apply IH; [lia |]. rewrite !length_write. exact Hlen.
Qed.

(** X11. The array of particle positions holds three numbers for each of
    the 2000 particles, each particle in its own three slots: the
    single-precision roundings of [cos(angle) radius], of the height and of
    [sin(angle) radius - 2], for that particle's three random numbers.  For
    random numbers in [[0, 1)] every particle lies in the box
    [[-7, 7] x [-1.5, 1.5] x [-9, 5]]. *)
Theorem dust_in_box (random : nat -> R) (k : nat) :
  single_precision fround ->
  (forall n : nat, 0 <= random n < 1) -> (k < 2000)%nat ->
  let angle := random (3 * k)%nat * PI * 2 in
  let radius := random (3 * k + 1)%nat * 6.5 + 0.5 in
  let px := fround (cos angle * radius) in
  let py := fround (random (3 * k + 2)%nat * 3 - 1.5) in
  let pz := fround (sin angle * radius - 2) in
  length (positions fround random) = (2000 * 3)%nat /\
  nth_error (positions fround random) (k * 3) = Some px /\
  nth_error (positions fround random) (k * 3 + 1) = Some py /\
  nth_error (positions fround random) (k * 3 + 2) = Some pz /\
  - 7 <= px <= 7 /\ - 1.5 <= py <= 1.5 /\ - 9 <= pz <= 5.
Proof.
  intros [Hmono [H15 H15'] [H7 H7'] H5 H9] Hrandom Hk angle radius px py pz.
  unfold positions, positions_of.
  assert (Hlen : length (repeat 0 (2000 * 3)) = (2000 * 3)%nat)
    by apply repeat_length.
  split; [rewrite length_positions_loop; exact Hlen |].
  destruct (positions_loop_point random 2000 0 k (repeat 0 (2000 * 3)))
    as (Hx & Hy & Hz); [lia | rewrite Hlen; lia |].
  split; [exact Hx |]. split; [exact Hy |]. split; [exact Hz |].
  pose proof (Hrandom (3 * k + 1)%nat) as Hr.
  pose proof (Hrandom (3 * k + 2)%nat) as Hh.
  pose proof (COS_bound angle) as Hcos.
  pose proof (SIN_bound angle) as Hsin.
  assert (Hradius : 0.5 <= radius < 7) by (subst radius; lra).
  split; [| split].
  - subst px. split.
    + apply Rle_trans with (fround (- 7)); [rewrite H7'; lra |].
      apply Hmono. nra.
    + apply Rle_trans with (fround 7); [| rewrite H7; lra].
      apply Hmono. nra.
  - subst py. split.
    + apply Rle_trans with (fround (- 1.5)); [rewrite H15'; lra |].
      apply Hmono. lra.
    + apply Rle_trans with (fround 1.5); [| rewrite H15; lra].
      apply Hmono. lra.
  - subst pz. split.
    + apply Rle_trans with (fround (- 9)); [rewrite H9; lra |].
      apply Hmono. nra.
    + apply Rle_trans with (fround 5); [| rewrite H5; lra].
      apply Hmono. nra.
Qed.

End Float32.

Lemma dust_in_box_witness :
  let px := cos (0.5 * PI * 2) * (0.5 * 6.5 + 0.5) in
  nth_error (positions (fun v => v) (fun _ => 0.5)) (7 * 3) = Some px /\
  - 7 <= px <= 7.
Proof.
  assert (Hsingle : single_precision (fun v => v)).
  { constructor; try (split; reflexivity); try reflexivity.
    intros a b Hab. exact Hab. }
  assert (Hrandom : forall n : nat, 0 <= 0.5 < 1) by (intros n; lra).
  assert (Hk : (7 < 2000)%nat) by lia.
  pose proof (dust_in_box (fun v => v) (fun _ => 0.5) 7 Hsingle Hrandom Hk)
    as (_ & Hx & _ & _ & Hbox & _).
  split; [exact Hx | exact Hbox].
Defined.

End StudioFacts.

(** ** The control panel *)

Module PanelFacts.
Import JsNum Store Scene Animator Panel.



(** *** Settings that come from the sliders *)

Ltac each_slider H :=
  cbn [sliders In] in H;
  repeat (destruct H as [H | H]; [subst |]); [.. | contradiction H].

Lemma within_sliders_create : within_sliders (settings create).
Proof.
  intros slider Hin. each_slider Hin; cbn; lra.
Qed.

Lemma within_sliders_slide (i : nat) (value : R) (st : AnimatorState) :
  in_range (Slide i value) -> within_sliders (settings st) ->
  within_sliders (settings (gesture (Slide i value) st)).
Proof.
  intros Hrange Hwithin. cbn [gesture in_range] in *.
  destruct (nth_error sliders i) as [moved |] eqn:Hmoved; [| exact Hwithin].
  apply nth_error_In in Hmoved.
  intros slider Hin. specialize (Hwithin slider Hin).
  unfold slider_onChange, setValue, set. cbn [settings].
  rewrite StoreFacts.field_spread_with.
  destruct (Key_eqb (slider_key slider) (slider_key moved)) eqn:Hkey;
    [| exact Hwithin].
  each_slider Hin; each_slider Hmoved; cbn in Hkey; try discriminate;
    exact Hrange.
Qed.

(** X13. Settings the panel can produce stay between the ends of their
    sliders: the defaults do, a slider writes only its own key and only a
    value of its range, and a reset restores the defaults. *)
Theorem sliders_keep_settings_in_range (gs : list Gesture) :
  (forall g : Gesture, In g gs -> in_range g) ->
  within_sliders (settings (gestures gs create)).
Proof.
  intros Hgs. unfold gestures.
  assert (Hstart : within_sliders (settings create))
    by apply within_sliders_create.
  revert Hstart. generalize create.
  induction gs as [| g gs IH]; intros st Hst; [exact Hst |].
  cbn [fold_left]. apply IH.
  - intros g' Hin. apply Hgs. right. exact Hin.
  - destruct g as [i value |].
    + apply within_sliders_slide; [apply Hgs; left; reflexivity | exact Hst].
    + apply within_sliders_create.
Qed.

Lemma sliders_keep_settings_in_range_witness :
  within_sliders
    (settings (gestures [Slide 7 14; PressReset; Slide 2 0.4] create)).
Proof.
  apply (sliders_keep_settings_in_range [Slide 7 14; PressReset; Slide 2 0.4]).
  intros g [<- | [<- | [<- | []]]]; cbn; try lra; exact I.
Defined.

Lemma within_sliders_field (settings : AnimationSettings) :
  within_sliders settings ->
  (0 <= depth settings <= 0.8) /\ (0 <= sway settings <= 1.5) /\
  (0 <= zoom settings <= 0.4) /\ (0 <= roll settings <= 0.2) /\
  (0 <= wave settings <= 0.4) /\ (0.6 <= exposure settings <= 1.5) /\
  (0 <= vignette settings <= 0.65) /\ (4 <= duration settings <= 14).
Proof.
  intros H.
  split; [apply (H (mkSlider Kdepth 0 0.8 0.01)); cbn; tauto |].
  split; [apply (H (mkSlider Ksway 0 1.5 0.01)); cbn; tauto |].
  split; [apply (H (mkSlider Kzoom 0 0.4 0.005)); cbn; tauto |].
  split; [apply (H (mkSlider Kroll 0 0.2 0.005)); cbn; tauto |].
  split; [apply (H (mkSlider Kwave 0 0.4 0.005)); cbn; tauto |].
  split; [apply (H (mkSlider Kexposure 0.6 1.5 0.01)); cbn; tauto |].
  split; [apply (H (mkSlider Kvignette 0 0.65 0.01)); cbn; tauto |].
  apply (H (mkSlider Kduration 4 14 1)); cbn; tauto.
Qed.

(** X14. With settings from the sliders the camera keeps its distance:
    at every frame it is between z = 1.82 and z = 4.38, more than one unit
    in front of the mesh plane pushed out by the whole displacement scale;
    the displacement scale is at most 0.6 and the vignette gradient stops
    between 35 and 100 percent. *)
Theorem camera_clear_of_mesh (settings : AnimationSettings) (delta : R)
  (st : SceneState) :
  within_sliders settings ->
  let st' := useFrame_callback settings delta st in
  1.82 <= z (cam_position (camera st')) <= 4.38 /\
  35 <= Studio.vignette_stop settings <= 100 /\
  forall mesh : Mesh,
    meshRef st' = Some mesh ->
    0 <= displacementScale mesh <= 0.6 /\
    position_z mesh + displacementScale mesh + 1
      < z (cam_position (camera st')).
Proof.
  intros Hwithin.
  destruct (within_sliders_field settings Hwithin)
    as (Hdepth & _ & Hzoom & _ & Hwave & _ & Hvignette & _).
  cbv zeta. rewrite SceneFacts.useFrame_callback_unfold. cbv zeta.
  cbn [camera cam_position z meshRef].
  set (cycle := frame_cycle (timeRef st + delta) settings).
  pose proof (SIN_bound (cycle * 0.5)) as Hs.
  assert (Hz : 1.82 <= 3.1 + sin (cycle * 0.5) * zoom settings * 3.2 <= 4.38)
    by nra.
  split; [exact Hz |].
  split; [unfold Studio.vignette_stop; lra |].
  intros mesh Hmesh. destruct (meshRef st); [| discriminate].
  cbn [option_map] in Hmesh. injection Hmesh as <-.
  cbn [position_z displacementScale].
  pose proof (SIN_bound (cycle * 1.4)) as Hw.
  split; [lra |]. nra.
Qed.

Lemma camera_clear_of_mesh_witness :
  1.82 <= z (cam_position
               (camera (useFrame_callback (Store.settings create) 0.5
                          fresh_scene))) <= 4.38.
Proof.
  apply (camera_clear_of_mesh (Store.settings create) 0.5 fresh_scene).
  apply within_sliders_create.
Defined.

(** X15. With settings from the sliders the clamp of the frame callback
    never bites: the scene loops with [settings.duration] itself, on the
    cycle the specification words, and the timer of a capture started then
    runs for exactly one loop of the scene. *)
Theorem capture_spans_one_loop (platform : Platform) (c : Component)
  (canvas : Canvas) (mime : string) :
  canvasRef c = Some canvas -> isRecording c = false ->
  first_supported platform codec_preferences = Some mime ->
  within_sliders (settings (store c)) ->
  frame_duration (settings (store c)) = duration (settings (store c)) /\
  (forall e : R,
      frame_cycle e (settings (store c)) = spec_cycle e (settings (store c))) /\
  timeouts (Animator.step platform ClickRecord c) =
    timeouts c ++
    [mkTimeout (length (recorders c))
       (frame_duration (settings (store c)) * 1000)].
Proof.
  intros Hcanvas Hidle Hsup Hwithin.
  destruct (within_sliders_field _ Hwithin) as (_ & _ & _ & _ & _ & _ & _ & Hd).
  assert (Hclamp : 0.1 <= duration (settings (store c))) by lra.
  split; [apply SceneFacts.frame_duration_unclamped; exact Hclamp |].
  split; [intros e; apply SceneFacts.frame_cycle_spec_cycle; exact Hclamp |].
  unfold Animator.step. cbn [handler].
  rewrite (AnimatorFacts.handleRecord_supported platform c canvas mime)
    by assumption.
  cbn [snd started timeouts].
  rewrite (SceneFacts.frame_duration_unclamped _ Hclamp). reflexivity.
Qed.

Lemma capture_spans_one_loop_witness :
  timeouts (Animator.step vp8_platform ClickRecord ready) =
    timeouts ready ++
    [mkTimeout (length (recorders ready))
       (frame_duration (settings (store ready)) * 1000)].
Proof.
  apply (proj2 (proj2 (capture_spans_one_loop vp8_platform ready 0%nat
                         "video/webm;codecs=vp8" eq_refl eq_refl eq_refl
                         within_sliders_create))).
Defined.

End PanelFacts.

(** ** Bookkeeping of the capture pipeline *)

Module LedgerFacts.
Import Store Animator Ledger AnimatorFacts.

Lemma Forall_alter_nth {A : Type} (P : A -> Prop) (f : A -> A) (i : nat)
  (xs : list A) :
  (forall x, P x -> P (f x)) -> Forall P xs -> Forall P (alter_nth f i xs).
Proof.
  intros Hf Hxs. revert i. induction Hxs as [| x xs Hx Hxs IH]; intros [| i];
    cbn; constructor; auto.
Qed.

Lemma Forall_remove_nth {A : Type} (P : A -> Prop) (i : nat) (xs : list A) :
  Forall P xs -> Forall P (remove_nth i xs).
Proof.
  intros Hxs. revert i. induction Hxs as [| x xs Hx Hxs IH]; intros [| i];
    cbn; try constructor; auto.
Qed.

Lemma alter_nth_shape {A : Type} (f : A -> A) (i : nat) (xs : list A) :
  match alter_nth f i xs with
  | [] => xs = []
  | _ :: _ => xs <> []
  end.
Proof. destruct xs, i; cbn; congruence. Qed.

Section WithPlatform.
Variable platform : Platform.

Lemma tidy_mount : tidy platform mount.
Proof.
  constructor; cbn; try reflexivity; try discriminate; try constructor.
Qed.

(** Changing recorders in place, without touching their types. *)
Lemma tidy_alter (f : MediaRecorder -> MediaRecorder) (r : nat) (c : Component) :
  (forall m, mimeType (f m) = mimeType m) ->
  tidy platform c ->
  tidy platform (with_recorders (alter_nth f r (recorders c)) c).
Proof.
  intros Hf [Hsig Href Hurl Hrec Hrecs Htimes Hcanvas].
  constructor; cbn.
  - rewrite StudioFacts.length_alter_nth. exact Hsig.
  - rewrite Href. pose proof (alter_nth_shape f r (recorders c)) as Hshape.
    rewrite StudioFacts.length_alter_nth.
    destruct (alter_nth f r (recorders c)), (recorders c);
      congruence || reflexivity.
  - exact Hurl.
  - exact Hrec.
  - apply Forall_alter_nth; [| exact Hrecs].
    intros m [Hin Hsup]. unfold chosen_well. rewrite Hf. split; assumption.
  - rewrite StudioFacts.length_alter_nth. exact Htimes.
  - intros Hnone. rewrite (Hcanvas Hnone). destruct r; reflexivity.
Qed.

Lemma tidy_with_effects (es : list Effect) (c : Component) :
  tidy platform c -> tidy platform (with_effects es c).
Proof. intros [? ? ? ? ? ? ?]. constructor; assumption. Qed.

Lemma tidy_stop (r : nat) (c : Component) :
  tidy platform c -> tidy platform (snd (stop r c)).
Proof.
  intros Ht. unfold stop, recorder_state, bind, read, update, emit, ret.
  cbn beta iota.
  destruct (match nth_error (recorders c) r with
            | Some m => state m
            | None => inactive
            end); cbn [snd]; try exact Ht;
    apply tidy_with_effects, tidy_alter; auto.
Qed.

Lemma tidy_started (mime : string) (c : Component) (canvas : Canvas) :
  canvasRef c = Some canvas ->
  first_supported platform codec_preferences = Some mime ->
  tidy platform c -> tidy platform (started mime c).
Proof.
  intros Hcanvas Hsup [Hsig Href Hurl Hrec Hrecs Htimes _].
  constructor; cbn.
  - rewrite length_app, Hsig. cbn [length]. lia.
  - rewrite length_app. cbn [length].
    destruct (recorders c) as [| m ms]; cbn; [reflexivity |].
    f_equal. lia.
  - discriminate.
  - intros _. split; reflexivity.
  - apply Forall_app. split; [exact Hrecs |]. constructor; [| constructor].
    unfold first_supported in Hsup. apply find_some in Hsup.
    exact Hsup.
  - apply Forall_app. split.
    + eapply Forall_impl; [| exact Htimes]. cbn. intros t Hlt.
      rewrite length_app. lia.
    + constructor; [| constructor]. cbn. rewrite length_app. cbn. lia.
  - rewrite Hcanvas. discriminate.
Qed.

Lemma tidy_finished (r : nat) (data : Blob) (c : Component) :
  tidy platform c -> tidy platform (finished r data c).
Proof.
  intros Ht.
  pose proof (tidy_alter (fun m => mkRecorder (mimeType m) (state m) false)
                r c (fun _ => eq_refl) Ht)
    as [Hsig Href _ _ Hrecs Htimes Hcanvas].
  constructor; cbn; try assumption.
  - intros url Hurl. injection Hurl as <-. rewrite length_app. cbn. lia.
  - discriminate.
Qed.

Lemma tidy_step (ev : Event) (c : Component) :
  tidy platform c -> tidy platform (step platform ev c).
Proof.
  intros Ht. unfold step.
  destruct ev as [mapped | canvas | call | file | load | | | i | r data];
    cbn [handler].
  - destruct Ht. destruct mapped; constructor; assumption.
  - destruct Ht as [Hsig Href Hurl Hrec Hrecs Htimes Hcanvas].
    constructor; try assumption. cbn. discriminate.
  - destruct Ht. constructor; assumption.
  - destruct file; [| exact Ht].
    destruct Ht as [Hsig Href Hurl Hrec Hrecs Htimes Hcanvas].
    constructor; try assumption; cbn.
    + discriminate.
    + intros Hr. split; [reflexivity | apply Hrec; exact Hr].
  - destruct Ht. destruct load; constructor; assumption.
  - destruct (canvasRef c) as [canvas |] eqn:Hcanvas;
      [| rewrite handleRecord_no_canvas by assumption; exact Ht].
    destruct (isRecording c) eqn:Hrec;
      [rewrite handleRecord_recording by assumption; exact Ht |].
    destruct (first_supported platform codec_preferences) as [mime |] eqn:Hsup.
    + rewrite (handleRecord_supported platform c canvas mime) by assumption.
      apply (tidy_started mime c canvas); assumption.
    + rewrite (handleRecord_unsupported platform c canvas) by assumption.
      exact Ht.
  - unfold stopRecording, recorder_state, bind, read, ret. cbn beta iota.
    destruct (recorderRef c) as [r |]; [| exact Ht].
    destruct (nth_error (recorders c) r) as [m |]; [| exact Ht].
    destruct (state m); try exact Ht. apply tidy_stop. exact Ht.
  - unfold timeout_fires, bind, read, update, ret. cbn beta iota.
    destruct (nth_error (timeouts c) i) as [t |]; [| exact Ht].
    apply tidy_stop.
    destruct Ht as [Hsig Href Hurl Hrec Hrecs Htimes Hcanvas].
    constructor; try assumption. cbn. apply Forall_remove_nth. exact Htimes.
  - destruct (nth_error (recorders c) r) as [m |] eqn:Hm;
      [| rewrite stop_task_idle; [exact Ht | intros m Hm'; congruence]].
    destruct (stop_queued m) eqn:Hq;
      [| rewrite stop_task_idle; [exact Ht | intros m' Hm'; congruence]].
    rewrite (stop_task_queued r m data c Hm Hq). apply tidy_finished. exact Ht.
Qed.

Lemma reachable_tidy (c : Component) : reachable platform c -> tidy platform c.
Proof.
  induction 1 as [| ev c _ IH]; [apply tidy_mount |].
  apply tidy_step; exact IH.
Qed.

(** X16. The restart signal counts the captures: in every reachable
    state [playSignal] is the number of recorders constructed so far, and
    [recorderRef] holds the most recent of them (nothing before the first). *)
Theorem playSignal_counts_captures (c : Component) :
  reachable platform c ->
  playSignal c = Z.of_nat (length (recorders c)) /\
  recorderRef c =
    match recorders c with
    | [] => None
    | _ :: _ => Some (pred (length (recorders c)))
    end.
Proof.
  intros Hreach. destruct (reachable_tidy c Hreach) as [Hsig Href _ _ _ _ _].
  split; assumption.
Qed.

(** X17. While a capture is on there is no download link and no chunk is
    held, so an artifact is made of its own capture's data alone: when the
    stop task of a recorder runs with [data], the component turns idle and
    the link is the new object URL of a WebM blob holding [data], or
    nothing if [data] is empty. *)
Theorem artifact_holds_own_data (c : Component) (r : nat) (m : MediaRecorder)
  (data : Blob) :
  reachable platform c ->
  (isRecording c = true -> downloadUrl c = None /\ chunksRef c = []) /\
  (nth_error (recorders c) r = Some m -> stop_queued m = true ->
   let c' := step platform (StopTask r data) c in
   isRecording c = true /\
   isRecording c' = false /\
   downloadUrl c' = Some (length (objectUrls c)) /\
   objectUrls c' =
     objectUrls c ++
     [new_Blob (if Nat.eqb (size data) 0 then [] else [data]) "video/webm"]).
Proof.
  intros Hreach.
  pose proof (reachable_tidy c Hreach) as Ht.
  pose proof (reachable_consistent platform c Hreach) as Hc.
  split; [apply (tidy_recording platform c Ht) |].
  intros Hm Hq c'.
  assert (Hrec : isRecording c = true).
  { unfold consistent in Hc. destruct (isRecording c); [reflexivity |].
    destruct (Hc r m Hm) as [_ Hq']. congruence. }
  destruct (tidy_recording platform c Ht Hrec) as [_ Hchunks].
  subst c'. unfold step. cbn [handler].
  rewrite (stop_task_queued r m data c Hm Hq). cbn [snd].
  unfold finished, delivered. rewrite Hchunks. cbn.
  split; [exact Hrec |]. split; [reflexivity |]. split; [reflexivity |].
  destruct (Nat.eqb (size data) 0); reflexivity.
Qed.

Lemma stop_keeps_objectUrls (r : nat) (c : Component) :
  objectUrls (snd (stop r c)) = objectUrls c.
Proof.
  unfold stop, recorder_state, bind, read, update, emit, ret. cbn.
  destruct (nth_error (recorders c) r) as [m |]; [| reflexivity].
  destruct (state m); reflexivity.
Qed.

Lemma step_objectUrls (ev : Event) (c : Component) :
  exists more : list Blob,
    objectUrls (step platform ev c) = objectUrls c ++ more.
Proof.
  unfold step.
  destruct ev as [mapped | canvas | call | file | load | | | i | r data];
    cbn [handler].
  - exists []. rewrite app_nil_r. destruct mapped; reflexivity.
  - exists []. rewrite app_nil_r. reflexivity.
  - exists []. rewrite app_nil_r. reflexivity.
  - exists []. rewrite app_nil_r. destruct file; reflexivity.
  - exists []. rewrite app_nil_r. destruct load; reflexivity.
  - exists []. rewrite app_nil_r.
    destruct (canvasRef c) as [canvas |] eqn:Hcanvas;
      [| rewrite handleRecord_no_canvas by assumption; reflexivity].
    destruct (isRecording c) eqn:Hrec;
      [rewrite handleRecord_recording by assumption; reflexivity |].
    destruct (first_supported platform codec_preferences) as [mime |] eqn:Hsup.
    + rewrite (handleRecord_supported platform c canvas mime) by assumption.
      reflexivity.
    + rewrite (handleRecord_unsupported platform c canvas) by assumption.
      reflexivity.
  - exists []. rewrite app_nil_r.
    unfold stopRecording, recorder_state, bind, read, ret. cbn beta iota.
    destruct (recorderRef c) as [r |]; [| reflexivity].
    destruct (nth_error (recorders c) r) as [m |]; [| reflexivity].
    destruct (state m); try reflexivity. apply stop_keeps_objectUrls.
  - exists []. rewrite app_nil_r.
    unfold timeout_fires, bind, read, update, ret. cbn beta iota.
    destruct (nth_error (timeouts c) i) as [t |]; [| reflexivity].
    rewrite stop_keeps_objectUrls. reflexivity.
  - destruct (nth_error (recorders c) r) as [m |] eqn:Hm;
      [| exists []; rewrite app_nil_r, stop_task_idle;
         [reflexivity | intros m Hm'; congruence]].
    destruct (stop_queued m) eqn:Hq;
      [| exists []; rewrite app_nil_r, stop_task_idle;
         [reflexivity | intros m' Hm'; congruence]].
    rewrite (stop_task_queued r m data c Hm Hq). cbn.
    eexists. reflexivity.
Qed.

(** X18. Object URLs are only ever added: every event leaves the ones
    there were, in place, and none is revoked; and in every reachable state
    a download link points at the most recent of them. *)
Theorem object_urls_only_grow (c : Component) :
  (forall evs : list Event,
      exists more : list Blob,
        objectUrls (run platform evs c) = objectUrls c ++ more) /\
  (reachable platform c ->
   forall url : nat,
     downloadUrl c = Some url -> S url = length (objectUrls c)).
Proof.
  split.
  - intros evs. revert c. induction evs as [| ev evs IH]; intros c.
    + exists []. rewrite app_nil_r. reflexivity.
    + change (run platform (ev :: evs) c)
        with (run platform evs (step platform ev c)).
      destruct (IH (step platform ev c)) as [more Hmore].
      destruct (step_objectUrls ev c) as [more0 Hmore0].
      exists (more0 ++ more). rewrite Hmore, Hmore0, app_assoc. reflexivity.
  - intros Hreach. apply (tidy_downloadUrl platform c).
    apply reachable_tidy. exact Hreach.
Qed.

(** X19. Every recorder the component ever constructs has one of the
    three listed types, and one the platform supports. *)
Theorem recorders_have_supported_type (c : Component) (r : nat)
  (m : MediaRecorder) :
  reachable platform c -> nth_error (recorders c) r = Some m ->
  In (mimeType m) codec_preferences /\
  isTypeSupported platform (mimeType m) = true.
Proof.
  intros Hreach Hm.
  pose proof (tidy_recorders platform c (reachable_tidy c Hreach)) as Hall.
  rewrite Forall_forall in Hall. apply Hall.
  apply nth_error_In with r. exact Hm.
Qed.

(** X20. A timer left over from an earlier capture does no harm: when
    the component is idle, or the timer belongs to a recorder other than the
    current one, its firing only takes it off the list of pending timers. *)
Theorem stale_timer_is_harmless (c : Component) (i : nat) (t : Timeout) :
  reachable platform c -> nth_error (timeouts c) i = Some t ->
  isRecording c = false \/ recorderRef c <> Some (timeout_recorder t) ->
  step platform (TimeoutFires i) c =
  with_timeouts (remove_nth i (timeouts c)) c.
Proof.
  intros Hreach Ht Hstale.
  pose proof (reachable_consistent platform c Hreach) as Hc.
  unfold step. cbn [handler]. unfold timeout_fires, bind, read, update.
  rewrite Ht. cbn beta iota. rewrite stop_inactive; [reflexivity |].
  cbn. intros m Hm. destruct (state m) eqn:Hst; [reflexivity | |];
    destruct (consistent_active c (timeout_recorder t) m Hc Hm)
      as (Hrec & Href & _); try congruence;
    destruct Hstale as [Hidle | Hother]; congruence.
Qed.

(** X21. Without a canvas nothing can be captured: in a reachable state
    whose [canvasRef] is empty no recorder has been constructed, no timer is
    pending, the component is idle, and a press on the record button
    changes nothing. *)
Theorem no_canvas_no_capture (c : Component) :
  reachable platform c -> canvasRef c = None ->
  recorders c = [] /\ timeouts c = [] /\ isRecording c = false /\
  step platform ClickRecord c = c.
Proof.
  intros Hreach Hcanvas.
  pose proof (reachable_tidy c Hreach) as Ht.
  pose proof (reachable_consistent platform c Hreach) as Hc.
  pose proof (tidy_canvas platform c Ht Hcanvas) as Hrecs.
  split; [exact Hrecs |]. split; [| split].
  - pose proof (tidy_timeouts platform c Ht) as Htimes.
    rewrite Hrecs in Htimes. destruct (timeouts c) as [| t ts]; [reflexivity |].
    inversion Htimes as [| ? ? Hlt _]. cbn in Hlt. lia.
  - unfold consistent in Hc. destruct (isRecording c); [| reflexivity].
    destruct Hc as (r & m & _ & Hm & _). rewrite Hrecs in Hm.
    destruct r; discriminate.
  - unfold step. cbn [handler].
    rewrite handleRecord_no_canvas by assumption. reflexivity.
Qed.

End WithPlatform.

(** X22. Preparing images, registering the canvas and moving sliders never
    touch a capture: such an event leaves the recorders, the pending timers
    (with the durations they were set with), the recording flag, the chunks,
    the object URLs and the restart signal as they are. *)
Theorem bystanders_leave_capture_alone (platform : Platform) (ev : Event)
  (c : Component) :
  bystander ev = true ->
  recorders (step platform ev c) = recorders c /\
  timeouts (step platform ev c) = timeouts c /\
  isRecording (step platform ev c) = isRecording c /\
  recorderRef (step platform ev c) = recorderRef c /\
  chunksRef (step platform ev c) = chunksRef c /\
  objectUrls (step platform ev c) = objectUrls c /\
  playSignal (step platform ev c) = playSignal c.
Proof.
  intros Hby.
  destruct ev as [[mapped |] | canvas | call | [file |] | [| | mapped] | | | i
                 | r data];
    try discriminate Hby; repeat split; reflexivity.
Qed.

Lemma playSignal_counts_captures_witness :
  playSignal (step vp8_platform ClickRecord ready) = 1%Z.
Proof.
  exact (proj1 (playSignal_counts_captures vp8_platform
                  (step vp8_platform ClickRecord ready)
                  (reachable_step vp8_platform ClickRecord ready
                     ready_reachable))).
Defined.

Lemma artifact_holds_own_data_witness :
  let c := run vp8_platform [ClickRecord; ClickStop] ready in
  objectUrls (step vp8_platform (StopTask 0 clip) c) =
    [new_Blob [clip] "video/webm"].
Proof.
  intros c.
  exact (proj2 (proj2 (proj2
           (proj2 (artifact_holds_own_data vp8_platform c 0
                     (mkRecorder "video/webm;codecs=vp8" inactive true) clip
                     (reachable_step vp8_platform ClickStop _
                        (reachable_step vp8_platform ClickRecord ready
                           ready_reachable)))
              eq_refl eq_refl)))).
Defined.

Lemma object_urls_only_grow_witness :
  let c := run vp8_platform [ClickRecord; ClickStop; StopTask 0 clip] ready in
  1%nat = length (objectUrls c).
Proof.
  intros c.
  exact (proj2 (object_urls_only_grow vp8_platform c)
           (reachable_step vp8_platform (StopTask 0 clip) _
              (reachable_step vp8_platform ClickStop _
                 (reachable_step vp8_platform ClickRecord ready
                    ready_reachable)))
           0%nat eq_refl).
Defined.

Lemma recorders_have_supported_type_witness :
  isTypeSupported vp8_platform "video/webm;codecs=vp8" = true.
Proof.
  exact (proj2 (recorders_have_supported_type vp8_platform
                  (step vp8_platform ClickRecord ready) 0
                  (mkRecorder "video/webm;codecs=vp8" recording false)
                  (reachable_step vp8_platform ClickRecord ready
                     ready_reachable)
                  eq_refl)).
Defined.

Lemma stale_timer_is_harmless_witness :
  let c :=
    run vp8_platform [ClickRecord; ClickStop; StopTask 0 clip; ClickRecord]
      ready in
  step vp8_platform (TimeoutFires 0) c =
  with_timeouts (remove_nth 0 (timeouts c)) c.
Proof.
  intros c.
  apply (stale_timer_is_harmless vp8_platform c 0
           (mkTimeout 0 (8 * 1000))).
  - exact (reachable_step vp8_platform ClickRecord _
             (reachable_step vp8_platform (StopTask 0 clip) _
                (reachable_step vp8_platform ClickStop _
                   (reachable_step vp8_platform ClickRecord ready
                      ready_reachable)))).
  - reflexivity.
  - right. discriminate.
Defined.

Lemma no_canvas_no_capture_witness :
  step vp8_platform ClickRecord mount = mount.
Proof.
  exact (proj2 (proj2 (proj2
           (no_canvas_no_capture vp8_platform mount
              (reachable_mount vp8_platform) eq_refl)))).
Defined.

Lemma bystanders_leave_capture_alone_witness :
  timeouts
    (step vp8_platform (StoreCall (CallSetValue Kduration 4))
       (step vp8_platform ClickRecord ready)) =
  timeouts (step vp8_platform ClickRecord ready).
Proof.
  exact (proj1 (proj2
           (bystanders_leave_capture_alone vp8_platform
              (StoreCall (CallSetValue Kduration 4))
              (step vp8_platform ClickRecord ready) eq_refl))).
Defined.

End LedgerFacts.
